(** * Sysfs interface of the power supply class (drivers/power/supply/power_supply_sysfs.c)

    A shallow embedding of the attribute table, of the read path
    [power_supply_show_property], of the write path
    [power_supply_store_property], of the permission computation
    [power_supply_attr_is_visible] and of the notification payload builder
    [power_supply_uevent], followed by the properties established about
    them. *)

From Stdlib Require Import ZArith NArith List String Ascii Bool Lia.
Import ListNotations.

Local Open Scope string_scope.
Local Open Scope Z_scope.

(* ================================================================== *)
(** * Constants of the C environment *)
(* ================================================================== *)

(** errno values (include/uapi/asm-generic/errno-base.h, errno.h). *)
Definition EAGAIN  : Z := 11.
Definition ENOMEM  : Z := 12.
Definition ENODEV  : Z := 19.
Definition EINVAL  : Z := 22.
Definition ERANGE  : Z := 34.
Definition ENODATA : Z := 61.

(** Permission bits (include/uapi/linux/stat.h), octal in the C headers. *)
Definition S_IRUSR : Z := 256.  (* 0400 *)
Definition S_IWUSR : Z := 128.  (* 0200 *)
Definition S_IRGRP : Z := 32.   (* 0040 *)
Definition S_IROTH : Z := 4.    (* 0004 *)

(** [int] is 32 bits wide and [long], [ssize_t] are 64 bits wide on the
    arm64 target of this tree.  An assignment of a wider value to an [int]
    keeps the low 32 bits, read back in two's complement. *)
Definition INT_MIN  : Z := - 2 ^ 31.
Definition INT_MAX  : Z := 2 ^ 31 - 1.
Definition LONG_MIN : Z := - 2 ^ 63.
Definition LONG_MAX : Z := 2 ^ 63 - 1.
Definition ULLONG_MAX : Z := 2 ^ 64 - 1.

Definition to_int (z : Z) : Z := (z + 2 ^ 31) mod 2 ^ 32 - 2 ^ 31.

Definition is_int (z : Z) : Prop := INT_MIN <= z <= INT_MAX.
Definition is_long (z : Z) : Prop := LONG_MIN <= z <= LONG_MAX.

(* ================================================================== *)
(** * Characters and strings *)
(* ================================================================== *)

Definition newline : ascii := ascii_of_N 10.

Definition code (c : ascii) : Z := Z.of_N (N_of_ascii c).

(** Modelled from the spec: [toupper] (include/linux/ctype.h over the table
    [_ctype] of lib/ctype.c, not among the sources at hand), which the spec
    words as upper-casing.  The characters the table marks as lower-case
    letters are a to z and, in the upper half of Latin-1, 0xDF to 0xFF
    without 0xF7; [toupper] moves such a character down by ['a' - 'A'] and
    returns any other character as it is. *)
Definition islower (c : ascii) : bool :=
  ((97 <=? code c) && (code c <=? 122))
  || ((223 <=? code c) && (code c <=? 246))
  || ((248 <=? code c) && (code c <=? 255)).

Definition toupper (c : ascii) : ascii :=
  if islower c then ascii_of_N (N_of_ascii c - 32) else c.

(** Letter case as the comparison "case-insensitive" of the spec needs it:
    [tolower] on the letters A to Z, which is all the enum tables
    contain. *)
Definition tolower (c : ascii) : ascii :=
  if (65 <=? code c) && (code c <=? 90)
  then ascii_of_N (N_of_ascii c + 32) else c.

Fixpoint strlower (s : string) : string :=
  match s with
  | EmptyString => EmptyString
  | String c r => String (tolower c) (strlower r)
  end.

Definition strlen (s : string) : Z := Z.of_nat (String.length s).

(** [kstruprdup]: a fresh copy of [str] with every character passed through
    [toupper].  The allocation is taken to succeed. *)
Fixpoint kstruprdup (str : string) : string :=
  match str with
  | EmptyString => EmptyString
  | String c r => String (toupper c) (kstruprdup r)
  end.

(** The effect of
      [line = strchr(prop_buf, '\n'); if (line) *line = 0;]
    on the C string held in [prop_buf]: it now ends before its first line
    terminator. *)
Fixpoint cut_at_newline (s : string) : string :=
  match s with
  | EmptyString => EmptyString
  | String c r => if Ascii.eqb c newline then EmptyString
                  else String c (cut_at_newline r)
  end.

(* ================================================================== *)
(** * The attribute table *)
(* ================================================================== *)

(** The preprocessor symbols that select entries of [power_supply_attrs]. *)
Record build_config : Type := {
  VENDOR_EDIT : bool;
  CONFIG_MTK_GAUGE_VERSION_10 : bool;   (* CONFIG_MTK_GAUGE_VERSION == 10 *)
  CONFIG_OPPO_CALL_MODE_SUPPORT : bool;
  CONFIG_OPPO_SHIP_MODE_SUPPORT : bool;
  CONFIG_OPPO_SHORT_C_BATT_CHECK : bool;
  CONFIG_OPPO_SHORT_USERSPACE : bool;
  CONFIG_OPPO_SHORT_HW_CHECK : bool;
  CONFIG_OPPO_SHORT_IC_CHECK : bool;
  ODM_HQ_EDIT : bool
}.

Definition ifdef (b : bool) (l : list string) : list string :=
  if b then l else [].

Definition ifdef_else (b : bool) (l1 l2 : list string) : list string :=
  if b then l1 else l2.

(** [power_supply_attrs]: the [.attr.name] of each entry, in table order. *)
Definition power_supply_attrs (cfg : build_config) : list string :=
  (ifdef (VENDOR_EDIT cfg)
     [ "authenticate"; "charge_timeout"; "battery_request_poweroff";
       "charge_technology"; "fastcharger"; "mmi_charging_enable";
       "stop_charging_enable"; "otg_switch"; "otg_online"; "batt_fcc";
       "batt_soh"; "batt_cc"; "batt_rm"; "notify_code"; "cool_down";
       "charger_ic"; "hmac" ]
   ++
   [ "status"; "charge_type"; "health"; "present"; "online"; "authentic";
     "technology"; "cycle_count"; "voltage_max"; "voltage_min";
     "voltage_max_design"; "voltage_min_design"; "voltage_now";
     "voltage_avg"; "voltage_ocv"; "voltage_boot"; "current_max";
     "current_now"; "current_avg"; "current_boot"; "power_now";
     "power_avg"; "charge_full_design"; "charge_empty_design";
     "charge_full"; "charge_empty"; "charge_now"; "charge_avg";
     "charge_counter"; "constant_charge_current";
     "constant_charge_current_max"; "constant_charge_voltage";
     "constant_charge_voltage_max"; "charge_control_limit";
     "charge_control_limit_max"; "input_current_limit";
     "energy_full_design"; "energy_empty_design"; "energy_full";
     "energy_empty"; "energy_now"; "energy_avg"; "capacity";
     "capacity_alert_min"; "capacity_alert_max"; "capacity_level"; "temp";
     "temp_max"; "temp_min"; "temp_alert_min"; "temp_alert_max";
     "temp_ambient"; "temp_ambient_alert_min"; "temp_ambient_alert_max";
     "time_to_empty_now"; "time_to_empty_avg"; "time_to_full_now";
     "time_to_full_avg"; "type"; "scope"; "precharge_current";
     "charge_term_current"; "calibrate";
     (* Local extensions *)
     "usb_hc"; "usb_otg"; "charge_enabled";
     (* Local extensions of type int64_t *)
     "charge_counter_ext" ]
   ++
   ifdef (CONFIG_MTK_GAUGE_VERSION_10 cfg)
     [ "batt_vol"; "batt_temp"; "TemperatureR"; "TempBattVoltage";
       "InstatVolt"; "BatteryAverageCurrent"; "BatterySenseVoltage";
       "ISenseVoltage"; "ChargerVoltage"; "status_smb"; "capacity_smb";
       "present_smb"; "adjust_power" ]
   ++
   ifdef (VENDOR_EDIT cfg)
     [ "adapter_fw_update"; "internal_capacity"; "chargerid_volt";
       "voocchg_ing"; "primal_type" ]
   ++
   ifdef (CONFIG_OPPO_CALL_MODE_SUPPORT cfg) [ "call_mode" ]
   ++
   ifdef (CONFIG_OPPO_SHIP_MODE_SUPPORT cfg) [ "ship_mode" ]
   ++
   [ "flashlight_temp" ]
   ++
   ifdef (VENDOR_EDIT cfg)
     (ifdef (CONFIG_OPPO_SHORT_C_BATT_CHECK cfg)
        (ifdef_else (CONFIG_OPPO_SHORT_USERSPACE cfg)
           [ "short_c_batt_limit_chg"; "short_c_batt_limit_rechg";
             "input_current_settled" ]
           [ "short_c_batt_update_change"; "short_c_batt_in_idle";
             "short_c_batt_cv_status" ])
      ++
      ifdef (CONFIG_OPPO_SHORT_HW_CHECK cfg)
        [ "short_c_hw_feature"; "short_c_hw_status" ]
      ++
      ifdef (CONFIG_OPPO_SHORT_IC_CHECK cfg)
        [ "short_ic_otp_status"; "short_ic_volt_thresh";
          "short_ic_otp_value" ]
      ++
      [ "fast2normal_chg" ])
   ++
   ifdef (VENDOR_EDIT cfg)
     [ "chip_soc"; "smooth_soc";
       "typec_cc_orientation"; "usb_status"; "usbtemp_volt_l";
       "usbtemp_volt_r" ]
   ++
   ifdef (ODM_HQ_EDIT cfg)
     [ "typec_sbu_voltage"; "water_detect_feature"; "fast_chg_type" ]
   ++
   [ "model_name"; "manufacturer"; "serial_number" ])%list.

(** The table must be "in the same order as POWER_SUPPLY_PROP_*": the value
    of an enumerator is the position of the entry carrying its name.  The
    enumeration itself (include/linux/power_supply.h) is read off the table
    in that way. *)
Fixpoint attr_position (name : string) (attrs : list string) : Z :=
  match attrs with
  | [] => 0
  | a :: rest => if String.eqb a name then 0
                 else 1 + attr_position name rest
  end.

Definition POWER_SUPPLY_PROP (cfg : build_config) (name : string) : Z :=
  attr_position name (power_supply_attrs cfg).

Definition POWER_SUPPLY_PROP_STATUS cfg := POWER_SUPPLY_PROP cfg "status".
Definition POWER_SUPPLY_PROP_CHARGE_TYPE cfg :=
  POWER_SUPPLY_PROP cfg "charge_type".
Definition POWER_SUPPLY_PROP_HEALTH cfg := POWER_SUPPLY_PROP cfg "health".
Definition POWER_SUPPLY_PROP_TECHNOLOGY cfg :=
  POWER_SUPPLY_PROP cfg "technology".
Definition POWER_SUPPLY_PROP_CAPACITY_LEVEL cfg :=
  POWER_SUPPLY_PROP cfg "capacity_level".
Definition POWER_SUPPLY_PROP_TYPE cfg := POWER_SUPPLY_PROP cfg "type".
Definition POWER_SUPPLY_PROP_SCOPE cfg := POWER_SUPPLY_PROP cfg "scope".
Definition POWER_SUPPLY_PROP_CHARGE_COUNTER_EXT cfg :=
  POWER_SUPPLY_PROP cfg "charge_counter_ext".
Definition POWER_SUPPLY_PROP_MODEL_NAME cfg :=
  POWER_SUPPLY_PROP cfg "model_name".
Definition POWER_SUPPLY_PROP_MANUFACTURER cfg :=
  POWER_SUPPLY_PROP cfg "manufacturer".
Definition POWER_SUPPLY_PROP_SERIAL_NUMBER cfg :=
  POWER_SUPPLY_PROP cfg "serial_number".

(** [power_supply_attrs[off].attr.name]; [None] stands for a read outside
    the table. *)
Definition attr_name (cfg : build_config) (off : Z) : option string :=
  if off <? 0 then None
  else nth_error (power_supply_attrs cfg) (Z.to_nat off).

(** The enum tables. *)
Definition power_supply_type_text : list string :=
  [ "Unknown"; "Battery"; "UPS"; "Mains"; "USB";
    "USB_DCP"; "USB_CDP"; "USB_ACA"; "Wireless"; "USB_C";
    "USB_PD"; "USB_PD_DRP"; "BrickID" ].

Definition power_supply_status_text : list string :=
  [ "Unknown"; "Charging"; "Discharging"; "Not charging"; "Full";
    "Cmd discharging" ].

Definition power_supply_charge_type_text : list string :=
  [ "Unknown"; "N/A"; "Trickle"; "Fast" ].

Definition power_supply_health_text : list string :=
  [ "Unknown"; "Good"; "Overheat"; "Dead"; "Over voltage";
    "Unspecified failure"; "Cold"; "Watchdog timer expire";
    "Safety timer expire" ].

Definition power_supply_technology_text : list string :=
  [ "Unknown"; "NiMH"; "Li-ion"; "Li-poly"; "LiFe"; "NiCd";
    "LiMn" ].

Definition power_supply_capacity_level_text : list string :=
  [ "Unknown"; "Critical"; "Low"; "Normal"; "High"; "Full" ].

Definition power_supply_scope_text : list string :=
  [ "Unknown"; "System"; "Device" ].

Definition ARRAY_SIZE {A : Type} (a : list A) : Z := Z.of_nat (List.length a).

(** [table[i]] for a C array: [None] stands for an access outside the
    array, which the C code does not guard against. *)
Definition array_get {A : Type} (a : list A) (i : Z) : option A :=
  if (0 <=? i) && (i <? ARRAY_SIZE a) then nth_error a (Z.to_nat i)
  else None.

(* ================================================================== *)
(** * Library routines the file calls *)
(* ================================================================== *)

(** ** Formatted output of integers *)

Definition digit_char (d : Z) : ascii := ascii_of_N (Z.to_N (48 + d)).

(** Decimal digits of a non-negative number, least significant digit
    produced first and stored last, as [put_dec] of lib/vsprintf.c fills
    its buffer. *)
Fixpoint put_dec (fuel : nat) (n : Z) (acc : string) : string :=
  let acc' := String (digit_char (n mod 10)) acc in
  match fuel with
  | O => acc'
  | S f => if n / 10 =? 0 then acc' else put_dec f (n / 10) acc'
  end.

Definition decimal (n : Z) : string := put_dec (Z.to_nat (Z.log2 n)) n "".

(** Modelled from the spec: the conversions "%d" and "%lld" of [sprintf]
    (lib/vsprintf.c, not among the sources at hand), which the spec words
    as "base-10 signed decimal". *)
Definition format_d (v : Z) : string :=
  if v <? 0 then String "-" (decimal (- v)) else decimal v.

(** [sprintf(buf, "%s\n", s)], [sprintf(buf, "%d\n", v)],
    [sprintf(buf, "%lld\n", v)]: the text stored in [buf]. *)
Definition sprintf_s_nl (s : string) : string := s ++ String newline "".
Definition sprintf_d_nl (v : Z) : string := sprintf_s_nl (format_d v).
Definition sprintf_lld_nl (v : Z) : string := sprintf_s_nl (format_d v).

(** ** Parsing of integers *)

Definition digit_val (c : ascii) : option Z :=
  if (48 <=? code c) && (code c <=? 57) then Some (code c - 48) else None.

(** The digits at the head of [s], accumulated in base 10 on top of [res];
    [rv] counts the characters consumed.  The accumulator is unbounded here;
    its comparison with [ULLONG_MAX] is made by the caller. *)
Fixpoint _parse_integer (s : string) (res rv : Z) : Z * Z * string :=
  match s with
  | EmptyString => (res, rv, s)
  | String c r =>
      match digit_val c with
      | Some d => _parse_integer r (res * 10 + d) (rv + 1)
      | None => (res, rv, s)
      end
  end.

(** Outcome of a [kstrto*] call: the status it returns and, when that is 0,
    the number stored through its result pointer. *)
Inductive kstrto_result : Type :=
| Parsed (v : Z)
| NotParsed (ret : Z).

Definition _kstrtoull (s : string) : kstrto_result :=
  let '(res, rv, rest) := _parse_integer s 0 0 in
  if ULLONG_MAX <? res then NotParsed (- ERANGE)
  else if rv =? 0 then NotParsed (- EINVAL)
  else
    let rest' := match rest with
                 | String c r => if Ascii.eqb c newline then r else rest
                 | EmptyString => rest
                 end in
    match rest' with
    | EmptyString => Parsed res
    | String _ _ => NotParsed (- EINVAL)
    end.

Definition kstrtoull (s : string) : kstrto_result :=
  match s with
  | String "+" r => _kstrtoull r
  | _ => _kstrtoull s
  end.

Definition kstrtoll (s : string) : kstrto_result :=
  match s with
  | String "-" r =>
      match _kstrtoull r with
      | NotParsed rv => NotParsed rv
      | Parsed tmp => if - LONG_MIN <? tmp then NotParsed (- ERANGE)
                      else Parsed (- tmp)
      end
  | _ =>
      match kstrtoull s with
      | NotParsed rv => NotParsed rv
      | Parsed tmp => if LONG_MAX <? tmp then NotParsed (- ERANGE)
                      else Parsed tmp
      end
  end.

(** Modelled from the spec: [kstrtol(buf, 10, &long_val)] (lib/kstrtox.c,
    not among the sources at hand).  The spec words it as parsing the text
    "as a base-10 (optionally signed) integer", failing otherwise; one
    trailing line terminator is accepted, so that a text produced by the
    read path can be written back.  [long] being 64 bits wide, the range is
    that of [long long]. *)
Definition kstrtol (s : string) : kstrto_result := kstrtoll s.

(** ** Matching a string against a table *)

(** Equality of two strings up to letter case and up to one trailing line
    terminator on either side. *)
Fixpoint sysfs_streq (s1 s2 : string) : bool :=
  match s1, s2 with
  | EmptyString, EmptyString => true
  | EmptyString, String c2 r2 =>
      Ascii.eqb c2 newline && match r2 with EmptyString => true | _ => false end
  | String c1 r1, EmptyString =>
      Ascii.eqb c1 newline && match r1 with EmptyString => true | _ => false end
  | String c1 r1, String c2 r2 =>
      Ascii.eqb (tolower c1) (tolower c2) && sysfs_streq r1 r2
  end.

Fixpoint __sysfs_match_string (array : list string) (index : Z)
         (str : string) : Z :=
  match array with
  | [] => - EINVAL
  | item :: rest =>
      if sysfs_streq item str then index
      else __sysfs_match_string rest (index + 1) str
  end.

(** Modelled from the spec: [sysfs_match_string(table, buf)]
    (lib/string.c, not among the sources at hand).  The spec words it as "a
    case-insensitive exact match of text against each table entry in
    order, returning the matching ordinal"; without a match the result is
    negative.  One trailing line terminator is accepted, as for
    [kstrtol]. *)
Definition sysfs_match_string (array : list string) (str : string) : Z :=
  __sysfs_match_string array 0 str.

(** ** The environment of a notification *)

(** [struct kobj_uevent_env]: the variables added so far, in order, the
    number of bytes of the buffer they occupy, and the two capacities of
    the structure (include/linux/kobject.h: the number of slots of [envp]
    and the size of [buf]). *)
Record kobj_uevent_env : Type := {
  envp : list string;
  buflen : Z;
  envp_slots : Z;   (* ARRAY_SIZE(env->envp) *)
  buf_size : Z      (* sizeof(env->buf) *)
}.

(** Modelled from the spec: [add_uevent_var(env, fmt, ...)]
    (lib/kobject_uevent.c, not among the sources at hand), applied to the
    text [line] the format expands to.  The accumulated sequence "must fit
    within a fixed maximum total byte budget": a variable that does not fit
    is refused with [-ENOMEM] and the environment is left as it was;
    otherwise it is appended and 0 is returned. *)
Definition add_uevent_var (env : kobj_uevent_env) (line : string)
  : Z * kobj_uevent_env :=
  if envp_slots env <=? ARRAY_SIZE (envp env) then (- ENOMEM, env)
  else if buf_size env - buflen env <=? strlen line then (- ENOMEM, env)
  else (0, {| envp := (envp env ++ [line])%list;
              buflen := buflen env + strlen line + 1;
              envp_slots := envp_slots env;
              buf_size := buf_size env |}).

(* ================================================================== *)
(** * The power supply and the functions of the file *)
(* ================================================================== *)

(** [union power_supply_propval], seen through each of its members. *)
Record power_supply_propval : Type := {
  intval : Z;
  int64val : Z;
  strval : string
}.

(** What a local [union power_supply_propval value] holds once only
    [value.intval] has been assigned; the other members are not read on
    the paths that do so. *)
Definition propval_of_int (v : Z) : power_supply_propval :=
  {| intval := v; int64val := 0; strval := "" |}.

Section PowerSupply.

(** The state of the driver and of its hardware. *)
Context {S : Type}.

(** [struct power_supply] with its [desc].  The driver is reached through
    [power_supply_get_property] and [power_supply_set_property]
    (power_supply_core.c), which return a status and, for the first, fill
    the value; both may change the driver's state. *)
Record power_supply : Type := {
  name : string;
  type : Z;
  properties : list Z;
  property_is_writeable : option (S -> Z -> Z);
  power_supply_get_property : S -> Z -> Z * power_supply_propval * S;
  power_supply_set_property : S -> Z -> power_supply_propval -> Z * S
}.

Variable cfg : build_config.

(** Result of a call that writes text into a buffer: the value returned
    and the content of the buffer afterwards, or a read outside one of the
    tables. *)
Inductive show_result : Type :=
| ShowRet (ret : Z) (buf : string)
| ShowFault.

(** [sprintf(buf, "%s\n", table[i])] *)
Definition show_enum (table : list string) (i : Z) : show_result :=
  match array_get table i with
  | Some text => ShowRet (strlen (sprintf_s_nl text)) (sprintf_s_nl text)
  | None => ShowFault
  end.

Definition show_text (text : string) : show_result :=
  ShowRet (strlen text) text.

Definition power_supply_show_property (psy : power_supply) (s : S)
           (off : Z) (buf : string) : show_result * S :=
  let '(ret, value, s1) :=
    if off =? POWER_SUPPLY_PROP_TYPE cfg
    then (0, propval_of_int (type psy), s)
    else power_supply_get_property psy s off in
  if ret <? 0 then (ShowRet ret buf, s1)
  else if off =? POWER_SUPPLY_PROP_STATUS cfg
    then (show_enum power_supply_status_text (intval value), s1)
  else if off =? POWER_SUPPLY_PROP_CHARGE_TYPE cfg
    then (show_enum power_supply_charge_type_text (intval value), s1)
  else if off =? POWER_SUPPLY_PROP_HEALTH cfg
    then (show_enum power_supply_health_text (intval value), s1)
  else if off =? POWER_SUPPLY_PROP_TECHNOLOGY cfg
    then (show_enum power_supply_technology_text (intval value), s1)
  else if off =? POWER_SUPPLY_PROP_CAPACITY_LEVEL cfg
    then (show_enum power_supply_capacity_level_text (intval value), s1)
  else if off =? POWER_SUPPLY_PROP_TYPE cfg
    then (show_enum power_supply_type_text (intval value), s1)
  else if off =? POWER_SUPPLY_PROP_SCOPE cfg
    then (show_enum power_supply_scope_text (intval value), s1)
  else if POWER_SUPPLY_PROP_MODEL_NAME cfg <=? off
    then (show_text (sprintf_s_nl (strval value)), s1)
  else if off =? POWER_SUPPLY_PROP_CHARGE_COUNTER_EXT cfg
    then (show_text (sprintf_lld_nl (int64val value)), s1)
  else (show_text (sprintf_d_nl (intval value)), s1).

(** The [switch] of [power_supply_store_property]. *)
Definition store_match_enum (off : Z) (buf : string) : Z :=
  if off =? POWER_SUPPLY_PROP_STATUS cfg
    then sysfs_match_string power_supply_status_text buf
  else if off =? POWER_SUPPLY_PROP_CHARGE_TYPE cfg
    then sysfs_match_string power_supply_charge_type_text buf
  else if off =? POWER_SUPPLY_PROP_HEALTH cfg
    then sysfs_match_string power_supply_health_text buf
  else if off =? POWER_SUPPLY_PROP_TECHNOLOGY cfg
    then sysfs_match_string power_supply_technology_text buf
  else if off =? POWER_SUPPLY_PROP_CAPACITY_LEVEL cfg
    then sysfs_match_string power_supply_capacity_level_text buf
  else if off =? POWER_SUPPLY_PROP_SCOPE cfg
    then sysfs_match_string power_supply_scope_text buf
  else - EINVAL.

(** The part of [power_supply_store_property] that comes before the call
    of the setter: either the function returns the negative [ret] of
    [kstrtol] here, or [value.intval] receives the [ssize_t ret]. *)
Inductive store_decoded : Type :=
| StoreValue (value_intval : Z)
| StoreReturn (ret : Z).

Definition store_decode (off : Z) (buf : string) : store_decoded :=
  let ret := store_match_enum off buf in
  if ret <? 0 then
    match kstrtol buf with
    | NotParsed ret' => StoreReturn ret'
    | Parsed long_val => StoreValue (to_int long_val)
    end
  else StoreValue (to_int ret).

Definition power_supply_store_property (psy : power_supply) (s : S)
           (off : Z) (buf : string) (count : Z) : Z * S :=
  match store_decode off buf with
  | StoreReturn ret => (ret, s)
  | StoreValue v =>
      let '(ret, s1) :=
        power_supply_set_property psy s off (propval_of_int v) in
      if ret <? 0 then (ret, s1) else (count, s1)
  end.

(** The loop of [power_supply_attr_is_visible] over
    [psy->desc->properties]. *)
Fixpoint attr_is_visible_scan (psy : power_supply) (s : S)
         (props : list Z) (attrno : Z) (mode : Z) : Z :=
  match props with
  | [] => 0
  | property :: rest =>
      if property =? attrno then
        match property_is_writeable psy with
        | Some is_writeable =>
            if 0 <? is_writeable s property then Z.lor mode S_IWUSR
            else mode
        | None => mode
        end
      else attr_is_visible_scan psy s rest attrno mode
  end.

Definition power_supply_attr_is_visible (psy : power_supply) (s : S)
           (attrno : Z) : Z :=
  let mode := Z.lor (Z.lor S_IRUSR S_IRGRP) S_IROTH in
  if attrno =? POWER_SUPPLY_PROP_TYPE cfg then mode
  else attr_is_visible_scan psy s (properties psy) attrno mode.

(** Result of [power_supply_uevent]: the value returned, or a read
    outside one of the tables on the way. *)
Inductive uevent_result : Type :=
| Returned (ret : Z)
| Faulted.

(** The [for] loop of [power_supply_uevent], from property [j] on;
    [ret] is 0 on entry of every iteration.  The allocations are taken
    to succeed. *)
Fixpoint uevent_loop (psy : power_supply) (props : list Z) (s : S)
         (prop_buf : string) (env : kobj_uevent_env)
  : uevent_result * kobj_uevent_env * S :=
  match props with
  | [] => (Returned 0, env, s)
  | off :: rest =>
      match power_supply_show_property psy s off prop_buf with
      | (ShowFault, s1) => (Faulted, env, s1)
      | (ShowRet ret buf, s1) =>
          if (ret =? - ENODEV) || (ret =? - ENODATA)
          then uevent_loop psy rest s1 buf env
          else if ret <? 0 then (Returned ret, env, s1)
          else
            let line := cut_at_newline buf in
            match attr_name cfg off with
            | None => (Faulted, env, s1)
            | Some nm =>
                let attrname := kstruprdup nm in
                let '(ret, env1) :=
                  add_uevent_var env
                    ("POWER_SUPPLY_" ++ attrname ++ "=" ++ line) in
                if ret =? 0 then uevent_loop psy rest s1 line env1
                else (Returned ret, env1, s1)
            end
      end
  end.

(** [power_supply_uevent]; [None] is the case [!psy || !psy->desc]. *)
Definition power_supply_uevent (dev : option power_supply) (s : S)
           (env : kobj_uevent_env)
  : uevent_result * kobj_uevent_env * S :=
  match dev with
  | None => (Returned 0, env, s)
  | Some psy =>
      let '(ret, env1) :=
        add_uevent_var env ("POWER_SUPPLY_NAME=" ++ name psy) in
      if ret =? 0 then uevent_loop psy (properties psy) s "" env1
      else (Returned ret, env1, s)
  end.

End PowerSupply.

Arguments power_supply : clear implicits.
Arguments show_result : clear implicits.
Arguments uevent_result : clear implicits.

(* ================================================================== *)
(** * Vocabulary of the statements *)
(* ================================================================== *)

(** The three outcomes of the permission computation. *)
Definition mode_none : Z := 0.
Definition mode_read_only : Z := Z.lor (Z.lor S_IRUSR S_IRGRP) S_IROTH.
Definition mode_read_write : Z := Z.lor mode_read_only S_IWUSR.

(** The properties whose text the write path looks up in a table, each
    with its table. *)
Definition store_enum_tables (cfg : build_config) : list (Z * list string) :=
  [ (POWER_SUPPLY_PROP_STATUS cfg, power_supply_status_text);
    (POWER_SUPPLY_PROP_CHARGE_TYPE cfg, power_supply_charge_type_text);
    (POWER_SUPPLY_PROP_HEALTH cfg, power_supply_health_text);
    (POWER_SUPPLY_PROP_TECHNOLOGY cfg, power_supply_technology_text);
    (POWER_SUPPLY_PROP_CAPACITY_LEVEL cfg,
       power_supply_capacity_level_text);
    (POWER_SUPPLY_PROP_SCOPE cfg, power_supply_scope_text) ].

(** The properties the read path renders through a table: the former and
    the supply type. *)
Definition show_enum_tables (cfg : build_config) : list (Z * list string) :=
  (POWER_SUPPLY_PROP_TYPE cfg, power_supply_type_text)
    :: store_enum_tables cfg.

(** A property rendered with "%d": inside the part of the table that
    precedes the strings, and none of the special cases. *)
Definition int_property (cfg : build_config) (off : Z) : Prop :=
  0 <= off < POWER_SUPPLY_PROP_MODEL_NAME cfg /\
  off <> POWER_SUPPLY_PROP_CHARGE_COUNTER_EXT cfg /\
  forall table, ~ In (off, table) (show_enum_tables cfg).

(** A property rendered with "%s" from [strval]. *)
Definition text_property (cfg : build_config) (off : Z) : Prop :=
  POWER_SUPPLY_PROP_MODEL_NAME cfg <= off.

(** Two texts that differ at most by the case of their letters. *)
Definition same_letters (a b : string) : Prop := strlower a = strlower b.

(** A table entry agrees with a written text: same letters, the text
    possibly followed by one line terminator (or the entry by one). *)
Definition entry_matches (entry text : string) : Prop :=
  same_letters entry text \/
  same_letters (entry ++ String newline "") text \/
  same_letters entry (text ++ String newline "").

(** [i] is the first position of [table] whose entry agrees with [text]. *)
Definition first_match (table : list string) (text : string) (i : Z)
  : Prop :=
  0 <= i /\
  (exists entry, nth_error table (Z.to_nat i) = Some entry /\
                 entry_matches entry text) /\
  (forall j entry, 0 <= j < i -> nth_error table (Z.to_nat j) = Some entry ->
                   ~ entry_matches entry text).

Definition no_match (table : list string) (text : string) : Prop :=
  forall entry, In entry table -> ~ entry_matches entry text.

(** The variables a run of the loop of [power_supply_uevent] can add for
    the properties [props]: in the order of [props], at most one per
    property, each named after the attribute of its property. *)
Inductive prop_lines (cfg : build_config) : list Z -> list string -> Prop :=
| prop_lines_stop props : prop_lines cfg props []
| prop_lines_skip off props lines :
    prop_lines cfg props lines -> prop_lines cfg (off :: props) lines
| prop_lines_emit off props lines nm value :
    attr_name cfg off = Some nm ->
    prop_lines cfg props lines ->
    prop_lines cfg (off :: props)
      (("POWER_SUPPLY_" ++ kstruprdup nm ++ "=" ++ value) :: lines).



(** A driver state that records the calls of the setter. *)
Definition set_log : Type := list (Z * Z).

(** Checks on the table, to be run on every configuration: the relative
    positions of the attributes the file tests for. *)
Definition layout_ok (cfg : build_config) : bool :=
  let st := POWER_SUPPLY_PROP_STATUS cfg in
  let mn := POWER_SUPPLY_PROP_MODEL_NAME cfg in
  (0 <=? st)
  && (POWER_SUPPLY_PROP_CHARGE_TYPE cfg =? st + 1)
  && (POWER_SUPPLY_PROP_HEALTH cfg =? st + 2)
  && (POWER_SUPPLY_PROP_TECHNOLOGY cfg =? st + 6)
  && (POWER_SUPPLY_PROP_CAPACITY_LEVEL cfg =? st + 45)
  && (POWER_SUPPLY_PROP_TYPE cfg =? st + 58)
  && (POWER_SUPPLY_PROP_SCOPE cfg =? st + 59)
  && (POWER_SUPPLY_PROP_CHARGE_COUNTER_EXT cfg =? st + 66)
  && (st + 66 <? mn)
  && (POWER_SUPPLY_PROP_MANUFACTURER cfg =? mn + 1)
  && (POWER_SUPPLY_PROP_SERIAL_NUMBER cfg =? mn + 2)
  && (ARRAY_SIZE (power_supply_attrs cfg) =? mn + 3).

(** The name found at the position of each enumerator used in the file. *)
Definition names_ok (cfg : build_config) : bool :=
  forallb
    (fun nm => match attr_name cfg (POWER_SUPPLY_PROP cfg nm) with
               | Some nm' => String.eqb nm nm'
               | None => false
               end)
    (power_supply_attrs cfg).

(** No attribute is called [name], whatever the case of its letters. *)
Definition no_name_attr (cfg : build_config) : bool :=
  forallb (fun nm => negb (String.eqb (kstruprdup nm) "NAME"))
          (power_supply_attrs cfg).

(** The two ends a rendered number is parsed with: nothing more, or the
    line terminator of the read path. *)
Definition line_end (rest : string) : Prop :=
  rest = "" \/ rest = String newline "".

(** The read path followed by the write path on a property whose getter
    has succeeded: the text rendered, and what the write path makes of it,
    with its line terminator and without. *)
Definition round_trips {S : Type} (cfg : build_config)
           (psy : power_supply S) (s : S) (off : Z) (buf : string)
           (s1 : S) (v : Z) : Prop :=
  exists text,
    power_supply_show_property cfg psy s off buf
      = (ShowRet (strlen text) text, s1) /\
    store_decode cfg off text = StoreValue v /\
    store_decode cfg off (cut_at_newline text) = StoreValue v.

(* ================================================================== *)
(** * Configurations and supplies used as examples *)
(* ================================================================== *)

Definition vendor_config : build_config :=
  {| VENDOR_EDIT := true;
     CONFIG_MTK_GAUGE_VERSION_10 := false;
     CONFIG_OPPO_CALL_MODE_SUPPORT := false;
     CONFIG_OPPO_SHIP_MODE_SUPPORT := false;
     CONFIG_OPPO_SHORT_C_BATT_CHECK := false;
     CONFIG_OPPO_SHORT_USERSPACE := false;
     CONFIG_OPPO_SHORT_HW_CHECK := false;
     CONFIG_OPPO_SHORT_IC_CHECK := false;
     ODM_HQ_EDIT := true |}.

Definition PROP_STATUS : Z := POWER_SUPPLY_PROP_STATUS vendor_config.
Definition PROP_CAPACITY : Z := POWER_SUPPLY_PROP vendor_config "capacity".
Definition PROP_PRESENT : Z := POWER_SUPPLY_PROP vendor_config "present".
Definition PROP_CHARGE_COUNTER_EXT : Z :=
  POWER_SUPPLY_PROP_CHARGE_COUNTER_EXT vendor_config.
Definition PROP_MODEL_NAME : Z := POWER_SUPPLY_PROP_MODEL_NAME vendor_config.

(** A battery whose getter answers from a fixed table of readings and
    whose setter accepts every value and records it. *)
Definition battery (props : list Z)
           (reading : Z -> Z * power_supply_propval)
           (writeable : option (Z -> Z)) : power_supply set_log :=
  {| name := "battery0";
     type := 1;
     properties := props;
     property_is_writeable :=
       match writeable with
       | Some f => Some (fun _ psp => f psp)
       | None => None
       end;
     power_supply_get_property :=
       fun s psp => let '(ret, value) := reading psp in (ret, value, s);
     power_supply_set_property :=
       fun s psp value => (0, (psp, intval value) :: s) |}.

(** Status "Charging", present, a 64-bit charge counter of 2^32, a model
    name; no data for the capacity. *)
Definition reading_charging (psp : Z) : Z * power_supply_propval :=
  if psp =? PROP_STATUS then (0, propval_of_int 1)
  else if psp =? PROP_PRESENT then (0, propval_of_int 1)
  else if psp =? PROP_CHARGE_COUNTER_EXT
    then (0, {| intval := 0; int64val := 4294967296; strval := "" |})
  else if psp =? PROP_MODEL_NAME
    then (0, {| intval := 0; int64val := 0; strval := "BLP807" |})
  else (- ENODATA, propval_of_int 0).

(** A supply that is not ready yet: every read is to be tried again. *)
Definition reading_not_ready (psp : Z) : Z * power_supply_propval :=
  (- EAGAIN, propval_of_int 0).

(** A driver that reports a status outside the table. *)
Definition reading_bad_status (psp : Z) : Z * power_supply_propval :=
  (0, propval_of_int 6).

Definition only_status_writeable (psp : Z) : Z :=
  if psp =? PROP_STATUS then 1 else 0.

Definition empty_env (slots size : Z) : kobj_uevent_env :=
  {| envp := []; buflen := 0; envp_slots := slots; buf_size := size |}.

(* ================================================================== *)
(** * Further vocabulary: the table, the pointer array, the payload *)
(* ================================================================== *)

(** No two elements of a list of names are equal. *)
Fixpoint distinct_names (l : list string) : bool :=
  match l with
  | [] => true
  | x :: rest => negb (existsb (String.eqb x) rest) && distinct_names rest
  end.

Definition has_newline (s : string) : bool :=
  negb (String.eqb (cut_at_newline s) s).

(** Checks on the table, to be run on every configuration. *)
Definition names_distinct (cfg : build_config) : bool :=
  distinct_names (power_supply_attrs cfg)
  && distinct_names (map kstruprdup (power_supply_attrs cfg)).

Definition names_one_line (cfg : build_config) : bool :=
  forallb (fun nm => negb (has_newline nm)) (power_supply_attrs cfg).

(** [__power_supply_attrs]: an array of [ARRAY_SIZE(power_supply_attrs) + 1]
    pointers, all NULL when the module is loaded.  A pointer
    [&power_supply_attrs[i].attr] is represented by the position [i]. *)
Definition __power_supply_attrs_at_load (cfg : build_config)
  : list (option Z) :=
  repeat None (List.length (power_supply_attrs cfg) + 1).

(** [a[i] = x] on a C array. *)
Fixpoint array_set {A : Type} (a : list A) (i : nat) (x : A) : list A :=
  match a, i with
  | [], _ => []
  | _ :: rest, O => x :: rest
  | y :: rest, Datatypes.S j => y :: array_set rest j x
  end.

(** The [for] loop of [power_supply_init_attrs], with [n] iterations left
    from index [i] on. *)
Fixpoint init_attrs_loop (n : nat) (i : Z) (attrs : list (option Z))
  : list (option Z) :=
  match n with
  | O => attrs
  | Datatypes.S m =>
      init_attrs_loop m (i + 1) (array_set attrs (Z.to_nat i) (Some i))
  end.

(** The groups a [struct device_type] can point to. *)
Inductive attribute_groups : Type :=
| power_supply_attr_groups.

(** [power_supply_init_attrs]: the new value of [dev_type->groups] and of
    [__power_supply_attrs]. *)
Definition power_supply_init_attrs (cfg : build_config)
           (__power_supply_attrs : list (option Z))
  : option attribute_groups * list (option Z) :=
  (Some power_supply_attr_groups,
   init_attrs_loop (List.length (power_supply_attrs cfg)) 0
                   __power_supply_attrs).

(** The variables the loop of [power_supply_uevent] is to add for a supply
    whose reads leave the driver as it is: for each property read with
    success, in order, its variable. *)
Definition snapshot_lines {S : Type} (cfg : build_config)
           (psy : power_supply S) (s : S) (props : list Z) : list string :=
  flat_map
    (fun off =>
       match power_supply_show_property cfg psy s off "" with
       | (ShowRet ret buf, _) =>
           if ret <? 0 then []
           else match attr_name cfg off with
                | Some nm =>
                    [ "POWER_SUPPLY_" ++ kstruprdup nm ++ "="
                        ++ cut_at_newline buf ]
                | None => []
                end
       | (ShowFault, _) => []
       end)
    props.



(** The bytes a list of variables takes in the buffer of an environment. *)
Fixpoint env_bytes (lines : list string) : Z :=
  match lines with
  | [] => 0
  | line :: rest => strlen line + 1 + env_bytes rest
  end.

Definition is_lower (c : ascii) : bool :=
  (97 <=? code c) && (code c <=? 122).

Definition is_ascii (c : ascii) : bool := code c <? 128.

Fixpoint all_chars (p : ascii -> bool) (s : string) : bool :=
  match s with
  | EmptyString => true
  | String c r => p c && all_chars p r
  end.

(** A supply whose reads leave the state of the driver as it is. *)
Definition reads_keep_state {S : Type} (psy : power_supply S) : Prop :=
  forall s off, snd (power_supply_get_property psy s off) = s.

(** The write bits for the group and for the others. *)
Definition S_IWGRP : Z := 16.  (* 0020 *)
Definition S_IWOTH : Z := 2.   (* 0002 *)

(** An environment that holds no more than its two capacities allow. *)
Definition within_capacity (env : kobj_uevent_env) : Prop :=
  ARRAY_SIZE (envp env) <= envp_slots env /\ buflen env <= buf_size env.

(** The rendering of a value chosen by the name of the attribute, as the
    comments of the table describe it: the enum properties through their
    tables, the properties "of type const char *" as strings, the local
    extension "of type int64_t" as a 64-bit number, the others as [int]. *)
Definition render_by_name (nm : string) (value : power_supply_propval)
  : show_result :=
  if String.eqb nm "status"
    then show_enum power_supply_status_text (intval value)
  else if String.eqb nm "charge_type"
    then show_enum power_supply_charge_type_text (intval value)
  else if String.eqb nm "health"
    then show_enum power_supply_health_text (intval value)
  else if String.eqb nm "technology"
    then show_enum power_supply_technology_text (intval value)
  else if String.eqb nm "capacity_level"
    then show_enum power_supply_capacity_level_text (intval value)
  else if String.eqb nm "type"
    then show_enum power_supply_type_text (intval value)
  else if String.eqb nm "scope"
    then show_enum power_supply_scope_text (intval value)
  else if String.eqb nm "model_name" || String.eqb nm "manufacturer"
          || String.eqb nm "serial_number"
    then show_text (sprintf_s_nl (strval value))
  else if String.eqb nm "charge_counter_ext"
    then show_text (sprintf_lld_nl (int64val value))
  else show_text (sprintf_d_nl (intval value)).

(** The names the read path and the write path test positions for. *)
Definition tested_names : list string :=
  [ "status"; "charge_type"; "health"; "technology"; "capacity_level";
    "type"; "scope"; "charge_counter_ext"; "model_name"; "manufacturer";
    "serial_number" ].

Definition tested_names_present (cfg : build_config) : bool :=
  forallb (fun nm => existsb (String.eqb nm) (power_supply_attrs cfg))
          tested_names.

(* ================================================================== *)
(** * Layout of the attribute table *)
(* ================================================================== *)

Ltac each_config cfg :=
  destruct cfg as [[] [] [] [] [] [] [] [] []]; vm_compute; reflexivity.


Lemma layout_ok_all cfg : layout_ok cfg = true.
Proof. each_config cfg. Qed.

Lemma prop_layout cfg :
  let st := POWER_SUPPLY_PROP_STATUS cfg in
  let mn := POWER_SUPPLY_PROP_MODEL_NAME cfg in
  0 <= st /\
  POWER_SUPPLY_PROP_CHARGE_TYPE cfg = st + 1 /\
  POWER_SUPPLY_PROP_HEALTH cfg = st + 2 /\
  POWER_SUPPLY_PROP_TECHNOLOGY cfg = st + 6 /\
  POWER_SUPPLY_PROP_CAPACITY_LEVEL cfg = st + 45 /\
  POWER_SUPPLY_PROP_TYPE cfg = st + 58 /\
  POWER_SUPPLY_PROP_SCOPE cfg = st + 59 /\
  POWER_SUPPLY_PROP_CHARGE_COUNTER_EXT cfg = st + 66 /\
  st + 66 < mn /\
  POWER_SUPPLY_PROP_MANUFACTURER cfg = mn + 1 /\
  POWER_SUPPLY_PROP_SERIAL_NUMBER cfg = mn + 2 /\
  ARRAY_SIZE (power_supply_attrs cfg) = mn + 3.
Proof.
  intros st mn. pose proof (layout_ok_all cfg) as H.
  unfold layout_ok in H. fold st mn in H.
  repeat (apply andb_true_iff in H; destruct H as [H ?]).
  repeat match goal with
         | E : (_ =? _) = true |- _ => apply Z.eqb_eq in E
         | E : (_ <? _) = true |- _ => apply Z.ltb_lt in E
         | E : (_ <=? _) = true |- _ => apply Z.leb_le in E
         end.
  repeat split; assumption.
Qed.


Lemma names_ok_all cfg : names_ok cfg = true.
Proof. each_config cfg. Qed.


Lemma no_name_attr_all cfg : no_name_attr cfg = true.
Proof. each_config cfg. Qed.

Lemma attr_name_In cfg off nm :
  attr_name cfg off = Some nm -> In nm (power_supply_attrs cfg).
Proof.
  unfold attr_name. destruct (off <? 0); [discriminate|].
  apply nth_error_In.
Qed.

Lemma attr_name_not_NAME cfg off nm :
  attr_name cfg off = Some nm -> kstruprdup nm <> "NAME".
Proof.
  intros H%attr_name_In.
  pose proof (no_name_attr_all cfg) as A. unfold no_name_attr in A.
  rewrite forallb_forall in A. specialize (A _ H).
  apply negb_true_iff, String.eqb_neq in A. exact A.
Qed.

(* ================================================================== *)
(** * Printing and parsing decimal numbers *)
(* ================================================================== *)

Lemma digit_val_digit_char d :
  0 <= d < 10 -> digit_val (digit_char d) = Some d.
Proof.
  intros H.
  assert (d = 0 \/ d = 1 \/ d = 2 \/ d = 3 \/ d = 4 \/ d = 5 \/ d = 6 \/
          d = 7 \/ d = 8 \/ d = 9) as C by lia.
  repeat (destruct C as [-> | C]; [reflexivity|]). subst d. reflexivity.
Qed.

Lemma digit_char_not_sign d :
  0 <= d < 10 -> digit_char d <> "-"%char /\ digit_char d <> "+"%char.
Proof.
  intros H.
  assert (d = 0 \/ d = 1 \/ d = 2 \/ d = 3 \/ d = 4 \/ d = 5 \/ d = 6 \/
          d = 7 \/ d = 8 \/ d = 9) as C by lia.
  repeat (destruct C as [-> | C]; [split; discriminate|]).
  subst d. split; discriminate.
Qed.

Lemma put_dec_app fuel : forall n acc rest,
  put_dec fuel n acc ++ rest = put_dec fuel n (acc ++ rest).
Proof.
  induction fuel as [|f IH]; intros n acc rest; simpl.
  - reflexivity.
  - destruct (n / 10 =? 0); [reflexivity|]. rewrite IH. reflexivity.
Qed.

Lemma put_dec_head fuel : forall n acc,
  0 <= n -> exists d r, 0 <= d < 10 /\ put_dec fuel n acc = String (digit_char d) r.
Proof.
  induction fuel as [|f IH]; intros n acc Hn; simpl.
  - exists (n mod 10), acc. split; [apply Z.mod_pos_bound; lia | reflexivity].
  - destruct (n / 10 =? 0).
    + exists (n mod 10), acc.
      split; [apply Z.mod_pos_bound; lia | reflexivity].
    + apply IH. apply Z.div_pos; lia.
Qed.

(** Parsing what [put_dec] wrote resumes, after the digits, with the number
    written appended in base 10 to the accumulator. *)
Lemma parse_put_dec fuel : forall n acc res rv,
  0 <= n < 2 ^ Z.of_nat (S fuel) ->
  exists k, 0 < k /\
    _parse_integer (put_dec fuel n acc) res rv
    = _parse_integer acc (res * 10 ^ k + n) (rv + k).
Proof.
  induction fuel as [|f IH]; intros n acc res rv Hn.
  - exists 1. split; [lia|]. cbn [put_dec _parse_integer].
    change (2 ^ Z.of_nat 1) with 2 in Hn.
    rewrite Z.mod_small by lia.
    rewrite digit_val_digit_char by lia.
    f_equal; lia.
  - cbn [put_dec]. destruct (Z.eqb_spec (n / 10) 0) as [E|E].
    + exists 1. split; [lia|]. cbn [_parse_integer].
      assert (n mod 10 = n) as ->.
      { pose proof (Z.div_mod n 10 ltac:(lia)). lia. }
      assert (0 <= n < 10).
      { pose proof (Z.div_mod n 10 ltac:(lia)).
        pose proof (Z.mod_pos_bound n 10 ltac:(lia)). lia. }
      rewrite digit_val_digit_char by lia. f_equal; lia.
    + assert (0 <= n / 10 < 2 ^ Z.of_nat (S f)) as Hq.
      { split; [apply Z.div_pos; lia|].
        apply Z.div_lt_upper_bound; [lia|].
        replace (Z.of_nat (S (S f))) with (Z.succ (Z.of_nat (S f))) in Hn by lia.
        rewrite Z.pow_succ_r in Hn by lia. lia. }
      destruct (IH (n / 10) (String (digit_char (n mod 10)) acc) res rv Hq)
        as (k & Hk & Eq).
      exists (k + 1). split; [lia|]. rewrite Eq. cbn [_parse_integer].
      rewrite digit_val_digit_char by (apply Z.mod_pos_bound; lia).
      f_equal; [|lia].
      rewrite Z.pow_add_r by lia.
      pose proof (Z.div_mod n 10 ltac:(lia)). lia.
Qed.

Lemma log2_fuel n : 0 <= n -> 0 <= n < 2 ^ Z.of_nat (S (Z.to_nat (Z.log2 n))).
Proof.
  intros Hn. split; [assumption|].
  destruct (Z.eq_dec n 0) as [->|Hz]; [reflexivity|].
  replace (Z.of_nat (S (Z.to_nat (Z.log2 n)))) with (Z.succ (Z.log2 n))
    by (pose proof (Z.log2_nonneg n); lia).
  apply Z.log2_spec. lia.
Qed.

Lemma parse_decimal n rest res rv :
  0 <= n ->
  exists k, 0 < k /\
    _parse_integer (decimal n ++ rest) res rv
    = _parse_integer rest (res * 10 ^ k + n) (rv + k).
Proof.
  intros Hn. unfold decimal. rewrite put_dec_app. cbn [append].
  apply parse_put_dec, log2_fuel, Hn.
Qed.


Lemma _kstrtoull_decimal n rest :
  0 <= n <= ULLONG_MAX -> line_end rest ->
  _kstrtoull (decimal n ++ rest) = Parsed n.
Proof.
  intros Hn Hr. unfold _kstrtoull.
  destruct (parse_decimal n rest 0 0 ltac:(lia)) as (k & Hk & ->).
  replace (0 * 10 ^ k + n) with n by lia.
  destruct Hr as [-> | ->]; cbn [_parse_integer digit_val];
    change (digit_val newline) with (@None Z); cbn iota.
  - destruct (Z.ltb_spec ULLONG_MAX n); [lia|].
    destruct (Z.eqb_spec (0 + k) 0); [lia|]. reflexivity.
  - destruct (Z.ltb_spec ULLONG_MAX n); [lia|].
    destruct (Z.eqb_spec (0 + k) 0); [lia|]. reflexivity.
Qed.

Lemma kstrtoull_decimal n rest :
  0 <= n <= ULLONG_MAX -> line_end rest ->
  kstrtoull (decimal n ++ rest) = Parsed n.
Proof.
  intros Hn Hr. rewrite <- (_kstrtoull_decimal n rest Hn Hr).
  unfold decimal. rewrite put_dec_app.
  destruct (put_dec_head (Z.to_nat (Z.log2 n)) n ("" ++ rest) ltac:(lia))
    as (d & r & Hd & ->).
  destruct (digit_char_not_sign d Hd) as [_ Hp].
  unfold kstrtoull.
  destruct (digit_char d) as [[] [] [] [] [] [] [] []];
    try reflexivity; congruence.
Qed.

(** [kstrtol] reads back every [long] written by "%d" or "%lld". *)
Lemma kstrtol_format_d v rest :
  is_long v -> line_end rest -> kstrtol (format_d v ++ rest) = Parsed v.
Proof.
  unfold is_long, LONG_MIN, LONG_MAX. intros Hv Hr.
  unfold kstrtol, format_d. destruct (Z.ltb_spec v 0) as [Hneg|Hpos].
  - cbn [append kstrtoll].
    rewrite _kstrtoull_decimal by (unfold ULLONG_MAX; lia || assumption).
    unfold LONG_MIN. destruct (Z.ltb_spec (- - 2 ^ 63) (- v)); [lia|].
    f_equal; lia.
  - assert (kstrtoll (decimal v ++ rest)
            = match kstrtoull (decimal v ++ rest) with
              | NotParsed rv => NotParsed rv
              | Parsed tmp => if LONG_MAX <? tmp then NotParsed (- ERANGE)
                              else Parsed tmp
              end) as ->.
    { unfold decimal. rewrite put_dec_app.
      destruct (put_dec_head (Z.to_nat (Z.log2 v)) v ("" ++ rest) ltac:(lia))
        as (d & r & Hd & ->).
      destruct (digit_char_not_sign d Hd) as [Hm _].
      unfold kstrtoll.
      destruct (digit_char d) as [[] [] [] [] [] [] [] []];
        try reflexivity; congruence. }
    rewrite kstrtoull_decimal by (unfold ULLONG_MAX; lia || assumption).
    unfold LONG_MAX. destruct (Z.ltb_spec (2 ^ 63 - 1) v); [lia|]. reflexivity.
Qed.

Lemma to_int_id v : is_int v -> to_int v = v.
Proof.
  unfold is_int, INT_MIN, INT_MAX, to_int. intros H.
  rewrite Z.mod_small by lia. lia.
Qed.

Lemma is_int_long v : is_int v -> is_long v.
Proof. unfold is_int, is_long, INT_MIN, INT_MAX, LONG_MIN, LONG_MAX. lia. Qed.

(* ================================================================== *)
(** * Matching a text against a table *)
(* ================================================================== *)

Lemma tolower_idem c : tolower (tolower c) = tolower c.
Proof. destruct c as [[] [] [] [] [] [] [] []]; reflexivity. Qed.

Lemma tolower_is_newline c : tolower c = newline -> c = newline.
Proof. destruct c as [[] [] [] [] [] [] [] []]; vm_compute; congruence. Qed.

Lemma eqb_tolower_newline c :
  Ascii.eqb (tolower c) newline = Ascii.eqb c newline.
Proof. destruct c as [[] [] [] [] [] [] [] []]; reflexivity. Qed.

Lemma strlower_idem s : strlower (strlower s) = strlower s.
Proof.
  induction s as [|c r IH]; simpl; [reflexivity|].
  rewrite tolower_idem, IH. reflexivity.
Qed.

Lemma strlower_empty s : strlower s = "" -> s = "".
Proof. destruct s; simpl; [reflexivity | discriminate]. Qed.

Lemma sysfs_streq_lower a : forall s,
  sysfs_streq a (strlower s) = sysfs_streq a s.
Proof.
  induction a as [|c1 r1 IH]; intros [|c2 r2]; simpl; try reflexivity.
  - rewrite eqb_tolower_newline. destruct r2; reflexivity.
  - rewrite tolower_idem, IH. reflexivity.
Qed.

(** [sysfs_streq] decides [entry_matches]. *)
Lemma sysfs_streq_sound a : forall b,
  sysfs_streq a b = true -> entry_matches a b.
Proof.
  unfold entry_matches, same_letters.
  induction a as [|c1 r1 IH]; intros [|c2 r2]; simpl; intros H.
  - left; reflexivity.
  - apply andb_true_iff in H. destruct H as [Hc Hr].
    apply Ascii.eqb_eq in Hc. destruct r2; [|discriminate]. subst c2.
    right; left. reflexivity.
  - apply andb_true_iff in H. destruct H as [Hc Hr].
    apply Ascii.eqb_eq in Hc. destruct r1; [|discriminate]. subst c1.
    right; right. reflexivity.
  - apply andb_true_iff in H. destruct H as [Hc Hr].
    apply Ascii.eqb_eq in Hc. rewrite Hc.
    destruct (IH _ Hr) as [E | [E | E]];
      [left | right; left | right; right]; rewrite E; reflexivity.
Qed.

Lemma sysfs_streq_complete a : forall b,
  entry_matches a b -> sysfs_streq a b = true.
Proof.
  unfold entry_matches, same_letters.
  induction a as [|c1 r1 IH]; intros [|c2 r2]; simpl; intros H.
  - reflexivity.
  - destruct H as [H | [H | H]]; try discriminate.
    injection H as Hc Hr. apply eq_sym, strlower_empty in Hr.
    apply eq_sym, tolower_is_newline in Hc. subst. reflexivity.
  - destruct H as [H | [H | H]]; try discriminate.
    injection H as Hc Hr. apply strlower_empty in Hr.
    apply tolower_is_newline in Hc. subst. reflexivity.
  - apply andb_true_iff.
    destruct H as [H | [H | H]]; injection H as Hc Hr;
      (split; [apply Ascii.eqb_eq; exact Hc | apply IH; tauto]).
Qed.

Lemma sysfs_streq_false a b :
  ~ entry_matches a b -> sysfs_streq a b = false.
Proof.
  intros H. destruct (sysfs_streq a b) eqn:E; [|reflexivity].
  exfalso. apply H, sysfs_streq_sound, E.
Qed.

Lemma match_string_lower table : forall k s,
  __sysfs_match_string table k (strlower s) = __sysfs_match_string table k s.
Proof.
  induction table as [|item rest IH]; intros k s; simpl; [reflexivity|].
  rewrite sysfs_streq_lower, IH. reflexivity.
Qed.

Lemma match_string_none table : forall k text,
  no_match table text -> __sysfs_match_string table k text = - EINVAL.
Proof.
  induction table as [|item rest IH]; intros k text H; simpl; [reflexivity|].
  rewrite sysfs_streq_false by (apply H; left; reflexivity).
  apply IH. intros e He. apply H. right; exact He.
Qed.

Lemma match_string_first table : forall k text i,
  first_match table text i ->
  __sysfs_match_string table k text = k + i /\ i < ARRAY_SIZE table.
Proof.
  unfold ARRAY_SIZE.
  induction table as [|item rest IH]; intros k text i (Hi & (e & He & Hm) & Hlt).
  - destruct (Z.to_nat i); discriminate.
  - cbn [__sysfs_match_string].
    destruct (Z.eq_dec i 0) as [->|Hnz].
    + simpl in He. injection He as ->.
      rewrite (sysfs_streq_complete _ _ Hm). split; [lia|].
      cbn [List.length]. lia.
    + assert (Z.to_nat i = Datatypes.S (Z.to_nat (i - 1))) as Ei by lia.
      rewrite sysfs_streq_false by (apply (Hlt 0); [lia | reflexivity]).
      destruct (IH (k + 1) text (i - 1)) as [E L].
      { split; [lia|]. split.
        - exists e. rewrite Ei in He. split; assumption.
        - intros j e' Hj Hn. apply (Hlt (j + 1)); [lia|].
          replace (Z.to_nat (j + 1)) with (Datatypes.S (Z.to_nat j)) by lia.
          exact Hn. }
      rewrite E. split; [lia|]. cbn [List.length]. lia.
Qed.

(* ================================================================== *)
(** * Dispatch on the position of the attribute *)
(* ================================================================== *)

Ltac layout_facts cfg :=
  let H := fresh "Hlayout" in
  pose proof (prop_layout cfg) as H; cbv zeta in H;
  decompose [and] H; clear H.

Ltac decide_offsets :=
  repeat match goal with
         | |- context [Z.eqb ?a ?b] =>
             destruct (Z.eqb_spec a b); try (exfalso; lia)
         | |- context [Z.leb ?a ?b] =>
             destruct (Z.leb_spec a b); try (exfalso; lia)
         | |- context [Z.ltb ?a ?b] =>
             destruct (Z.ltb_spec a b); try (exfalso; lia)
         end.

Ltac in_tables H :=
  cbn [In store_enum_tables show_enum_tables] in H;
  repeat (destruct H as [H | H]; [injection H as <- <- | ]);
  [ .. | contradiction ].

Lemma store_match_enum_table cfg off table buf :
  In (off, table) (store_enum_tables cfg) ->
  store_match_enum cfg off buf = sysfs_match_string table buf.
Proof.
  intros H. layout_facts cfg. unfold store_match_enum.
  in_tables H; decide_offsets; reflexivity.
Qed.

Lemma store_match_enum_other cfg off buf :
  (forall table, ~ In (off, table) (store_enum_tables cfg)) ->
  store_match_enum cfg off buf = - EINVAL.
Proof.
  intros H. unfold store_match_enum.
  repeat match goal with
         | |- context [Z.eqb off ?b] =>
             destruct (Z.eqb_spec off b) as [->|];
             [exfalso; eapply H; cbn [In store_enum_tables]; tauto|]
         end.
  reflexivity.
Qed.

Lemma store_table_small cfg off table :
  In (off, table) (store_enum_tables cfg) -> ARRAY_SIZE table <= 9.
Proof. intros H. in_tables H; vm_compute; discriminate. Qed.

Lemma _kstrtoull_error s ret :
  _kstrtoull s = NotParsed ret -> ret = - EINVAL \/ ret = - ERANGE.
Proof.
  unfold _kstrtoull. destruct (_parse_integer s 0 0) as [[res rv] rest].
  destruct (ULLONG_MAX <? res); [intros [= <-]; tauto|].
  destruct (rv =? 0); [intros [= <-]; tauto|].
  destruct rest as [|c r]; [discriminate|].
  destruct (Ascii.eqb c newline); [destruct r|]; try discriminate;
    intros [= <-]; tauto.
Qed.

Lemma kstrtoull_error s ret :
  kstrtoull s = NotParsed ret -> ret = - EINVAL \/ ret = - ERANGE.
Proof.
  destruct s as [|c r]; [apply _kstrtoull_error|].
  destruct c as [[] [] [] [] [] [] [] []]; apply _kstrtoull_error.
Qed.

Lemma kstrtol_error s ret :
  kstrtol s = NotParsed ret -> ret = - EINVAL \/ ret = - ERANGE.
Proof.
  assert (forall t,
    match kstrtoull t with
    | NotParsed rv => NotParsed rv
    | Parsed tmp => if LONG_MAX <? tmp then NotParsed (- ERANGE)
                    else Parsed tmp
    end = NotParsed ret -> ret = - EINVAL \/ ret = - ERANGE) as Pos.
  { intros t. destruct (kstrtoull t) eqn:E.
    - destruct (LONG_MAX <? v); [intros [= <-]; tauto | discriminate].
    - intros [= <-]. eapply kstrtoull_error, E. }
  assert (forall t,
    match _kstrtoull t with
    | NotParsed rv => NotParsed rv
    | Parsed tmp => if - LONG_MIN <? tmp then NotParsed (- ERANGE)
                    else Parsed (- tmp)
    end = NotParsed ret -> ret = - EINVAL \/ ret = - ERANGE) as Neg.
  { intros t. destruct (_kstrtoull t) eqn:E.
    - destruct (- LONG_MIN <? v); [intros [= <-]; tauto | discriminate].
    - intros [= <-]. eapply _kstrtoull_error, E. }
  unfold kstrtol, kstrtoll. destruct s as [|c r]; [apply Pos|].
  destruct c as [[] [] [] [] [] [] [] []]; first [apply Pos | apply Neg].
Qed.

Lemma kstrtol_error_negative s ret : kstrtol s = NotParsed ret -> ret < 0.
Proof.
  intros H. destruct (kstrtol_error _ _ H) as [-> | ->]; reflexivity.
Qed.

(* ================================================================== *)
(** * The write path on the enum properties *)
(* ================================================================== *)

Lemma store_decode_no_match cfg off table text :
  In (off, table) (store_enum_tables cfg) ->
  no_match table text ->
  store_decode cfg off text
  = match kstrtol text with
    | NotParsed ret => StoreReturn ret
    | Parsed long_val => StoreValue (to_int long_val)
    end.
Proof.
  intros Hin Hno. unfold store_decode.
  rewrite (store_match_enum_table _ _ _ _ Hin).
  unfold sysfs_match_string. rewrite match_string_none by assumption.
  reflexivity.
Qed.

Lemma store_decode_first_match cfg off table text i :
  In (off, table) (store_enum_tables cfg) ->
  first_match table text i ->
  store_decode cfg off text = StoreValue i.
Proof.
  intros Hin Hm. unfold store_decode.
  rewrite (store_match_enum_table _ _ _ _ Hin).
  unfold sysfs_match_string.
  destruct (match_string_first table 0 text i Hm) as [-> Hlt].
  pose proof (store_table_small _ _ _ Hin).
  destruct Hm as (Hi & _). destruct (Z.ltb_spec (0 + i) 0); [lia|].
  rewrite to_int_id; [f_equal; lia|].
  unfold is_int, INT_MIN, INT_MAX. lia.
Qed.

(** In each table of the write path the entries differ beyond the case of
    their letters, and none reads as a number: the lower-cased entry is
    found at its own position, and the decimal form of the position is
    found nowhere but parsed. *)
Lemma store_decode_entry cfg off table i entry :
  In (off, table) (store_enum_tables cfg) ->
  0 <= i -> nth_error table (Z.to_nat i) = Some entry ->
  sysfs_match_string table (strlower entry) = i /\
  sysfs_match_string table (format_d i) = - EINVAL /\
  kstrtol (format_d i) = Parsed i.
Proof.
  intros Hin Hi Hn.
  rewrite <- (Z2Nat.id i Hi). set (n := Z.to_nat i) in *. clearbody n.
  in_tables Hin;
    do 10 (destruct n as [|n];
           [first [ discriminate Hn
                  | injection Hn as <-; vm_compute; repeat split; reflexivity ]
           |]);
    destruct n; discriminate.
Qed.

(** C1. On each of the six enum properties of the write path (status,
    charge_type, health, technology, capacity_level, scope), the text is
    first compared with the entries of the property's table in order,
    whatever the case of its letters, and the position of the first entry
    that agrees becomes the value; when no entry agrees the text is parsed
    as a signed decimal number, which becomes the value converted to [int]
    without any check against the table; when this fails too the function
    returns the negative status of the parser.  In particular an entry
    written in any letter case and the decimal form of its position are
    decoded to the same value. *)
Theorem store_decode_enum_text {S : Type} cfg (psy : power_supply S)
        s off table count :
  In (off, table) (store_enum_tables cfg) ->
  (forall text i,
      first_match table text i -> store_decode cfg off text = StoreValue i) /\
  (forall text n,
      no_match table text -> kstrtol text = Parsed n ->
      store_decode cfg off text = StoreValue (to_int n) /\
      (is_int n -> to_int n = n)) /\
  (forall text ret,
      no_match table text -> kstrtol text = NotParsed ret ->
      store_decode cfg off text = StoreReturn ret /\ ret < 0 /\
      power_supply_store_property cfg psy s off text count = (ret, s)) /\
  (forall i entry text,
      0 <= i -> nth_error table (Z.to_nat i) = Some entry ->
      same_letters text entry ->
      store_decode cfg off text = StoreValue i /\
      store_decode cfg off (format_d i) = StoreValue i).
Proof.
  intros Hin. split; [|split; [|split]].
  - intros text i Hm. eapply store_decode_first_match; eassumption.
  - intros text n Hno Hp.
    rewrite (store_decode_no_match _ _ _ _ Hin Hno), Hp.
    split; [reflexivity | apply to_int_id].
  - intros text ret Hno Hp.
    assert (store_decode cfg off text = StoreReturn ret) as D
        by (rewrite (store_decode_no_match _ _ _ _ Hin Hno), Hp; reflexivity).
    split; [exact D|]. split; [eapply kstrtol_error_negative, Hp|].
    unfold power_supply_store_property. rewrite D. reflexivity.
  - intros i entry text Hi Hn Hsame.
    destruct (store_decode_entry _ _ _ _ _ Hin Hi Hn) as (Hm & Hno & Hp).
    pose proof (store_table_small _ _ _ Hin) as Hsmall.
    assert (i < ARRAY_SIZE table) as Hlt.
    { unfold ARRAY_SIZE.
      assert (Z.to_nat i < List.length table)%nat
        by (apply nth_error_Some; congruence). lia. }
    unfold store_decode. rewrite !(store_match_enum_table _ _ _ _ Hin).
    rewrite Hno, Hp. cbn [Z.ltb Z.compare EINVAL Z.opp].
    unfold sysfs_match_string in *. rewrite <- match_string_lower.
    unfold same_letters in Hsame. rewrite Hsame, Hm.
    destruct (Z.ltb_spec i 0); [lia|].
    rewrite to_int_id by (unfold is_int, INT_MIN, INT_MAX; lia).
    split; reflexivity.
Qed.

Lemma store_decode_enum_text_witness :
  store_decode vendor_config PROP_STATUS "nOT cHARGING" = StoreValue 3 /\
  store_decode vendor_config PROP_STATUS (format_d 3) = StoreValue 3.
Proof.
  assert (In (PROP_STATUS, power_supply_status_text)
             (store_enum_tables vendor_config)) as Hin
    by (left; reflexivity).
  destruct (store_decode_enum_text vendor_config
              (battery [PROP_STATUS] reading_charging None) []
              PROP_STATUS power_supply_status_text 13 Hin)
    as (_ & _ & _ & H).
  apply (H 3 "Not charging" "nOT cHARGING");
    [lia | reflexivity | reflexivity].
Defined.

(* ================================================================== *)
(** * The read path *)
(* ================================================================== *)

Section ReadPath.

Context {S : Type}.
Variable cfg : build_config.
Variable psy : power_supply S.

(** What [value.intval] holds when the rendering starts. *)
Lemma show_enum_property s off table buf ret value s1 :
  In (off, table) (store_enum_tables cfg) ->
  power_supply_get_property psy s off = (ret, value, s1) -> 0 <= ret ->
  power_supply_show_property cfg psy s off buf
  = (show_enum table (intval value), s1).
Proof.
  intros Hin Hget Hret. layout_facts cfg.
  unfold power_supply_show_property.
  in_tables Hin; decide_offsets; rewrite Hget; decide_offsets; reflexivity.
Qed.

Lemma show_type_property s buf :
  power_supply_show_property cfg psy s (POWER_SUPPLY_PROP_TYPE cfg) buf
  = (show_enum power_supply_type_text (type psy), s).
Proof.
  layout_facts cfg. unfold power_supply_show_property.
  rewrite Z.eqb_refl. cbn match. decide_offsets. reflexivity.
Qed.

Lemma int_property_offsets off :
  int_property cfg off ->
  off <> POWER_SUPPLY_PROP_STATUS cfg /\
  off <> POWER_SUPPLY_PROP_CHARGE_TYPE cfg /\
  off <> POWER_SUPPLY_PROP_HEALTH cfg /\
  off <> POWER_SUPPLY_PROP_TECHNOLOGY cfg /\
  off <> POWER_SUPPLY_PROP_CAPACITY_LEVEL cfg /\
  off <> POWER_SUPPLY_PROP_TYPE cfg /\
  off <> POWER_SUPPLY_PROP_SCOPE cfg /\
  off <> POWER_SUPPLY_PROP_CHARGE_COUNTER_EXT cfg /\
  off < POWER_SUPPLY_PROP_MODEL_NAME cfg.
Proof.
  intros (Hr & Hx & Hn).
  repeat split; try assumption; try lia;
    intros ->; eapply Hn; cbn [In show_enum_tables store_enum_tables];
    tauto.
Qed.

Lemma show_int_property s off buf ret value s1 :
  int_property cfg off ->
  power_supply_get_property psy s off = (ret, value, s1) -> 0 <= ret ->
  power_supply_show_property cfg psy s off buf
  = (show_text (sprintf_d_nl (intval value)), s1).
Proof.
  intros Hint Hget Hret. apply int_property_offsets in Hint.
  decompose [and] Hint. unfold power_supply_show_property.
  decide_offsets. rewrite Hget. decide_offsets. reflexivity.
Qed.

Lemma show_int64_property s buf ret value s1 :
  power_supply_get_property psy s (POWER_SUPPLY_PROP_CHARGE_COUNTER_EXT cfg)
    = (ret, value, s1) -> 0 <= ret ->
  power_supply_show_property cfg psy s
    (POWER_SUPPLY_PROP_CHARGE_COUNTER_EXT cfg) buf
  = (show_text (sprintf_lld_nl (int64val value)), s1).
Proof.
  intros Hget Hret. layout_facts cfg. unfold power_supply_show_property.
  decide_offsets. rewrite Hget. decide_offsets. reflexivity.
Qed.

Lemma show_failed s off buf ret value s1 :
  off <> POWER_SUPPLY_PROP_TYPE cfg ->
  power_supply_get_property psy s off = (ret, value, s1) -> ret < 0 ->
  power_supply_show_property cfg psy s off buf = (ShowRet ret buf, s1).
Proof.
  intros Ht Hget Hret. unfold power_supply_show_property.
  destruct (Z.eqb_spec off (POWER_SUPPLY_PROP_TYPE cfg)); [contradiction|].
  rewrite Hget. destruct (Z.ltb_spec ret 0); [reflexivity | lia].
Qed.

End ReadPath.

(* ================================================================== *)
(** * Texts without a line terminator *)
(* ================================================================== *)

Lemma digit_char_not_newline d :
  0 <= d < 10 -> Ascii.eqb (digit_char d) newline = false.
Proof.
  intros H.
  assert (d = 0 \/ d = 1 \/ d = 2 \/ d = 3 \/ d = 4 \/ d = 5 \/ d = 6 \/
          d = 7 \/ d = 8 \/ d = 9) as C by lia.
  repeat (destruct C as [-> | C]; [reflexivity|]). subst d. reflexivity.
Qed.

Lemma cut_put_dec fuel : forall n acc,
  0 <= n ->
  cut_at_newline (put_dec fuel n acc) = put_dec fuel n (cut_at_newline acc).
Proof.
  induction fuel as [|f IH]; intros n acc Hn; cbn [put_dec].
  - cbn [cut_at_newline].
    rewrite digit_char_not_newline by (apply Z.mod_pos_bound; lia).
    reflexivity.
  - destruct (n / 10 =? 0).
    + cbn [cut_at_newline].
      rewrite digit_char_not_newline by (apply Z.mod_pos_bound; lia).
      reflexivity.
    + rewrite IH by (apply Z.div_pos; lia). cbn [cut_at_newline].
      rewrite digit_char_not_newline by (apply Z.mod_pos_bound; lia).
      reflexivity.
Qed.

Lemma cut_sprintf_d_nl v : cut_at_newline (sprintf_d_nl v) = format_d v.
Proof.
  unfold sprintf_d_nl, sprintf_s_nl, format_d, decimal.
  destruct (v <? 0) eqn:E.
  - cbn [append cut_at_newline]. change (Ascii.eqb "-" newline) with false.
    cbn iota. rewrite put_dec_app, cut_put_dec by lia. reflexivity.
  - apply Z.ltb_ge in E. rewrite put_dec_app, cut_put_dec by lia. reflexivity.
Qed.

Lemma append_empty_r s : s ++ "" = s.
Proof. induction s as [|c r IH]; simpl; [|rewrite IH]; reflexivity. Qed.

Lemma kstrtol_format_d_alone v : is_long v -> kstrtol (format_d v) = Parsed v.
Proof.
  intros Hv. rewrite <- (append_empty_r (format_d v)).
  apply kstrtol_format_d; [assumption | left; reflexivity].
Qed.

(** An integer written by the read path comes back through the write path
    of a property that has no table. *)
Lemma store_decode_sprintf_d cfg off v :
  (forall table, ~ In (off, table) (store_enum_tables cfg)) ->
  is_long v ->
  store_decode cfg off (sprintf_d_nl v) = StoreValue (to_int v) /\
  store_decode cfg off (cut_at_newline (sprintf_d_nl v))
    = StoreValue (to_int v).
Proof.
  intros Hno Hv. unfold store_decode.
  rewrite !store_match_enum_other by assumption.
  cbn [Z.ltb Z.compare EINVAL Z.opp]. rewrite cut_sprintf_d_nl.
  unfold sprintf_d_nl, sprintf_s_nl.
  rewrite kstrtol_format_d by (assumption || right; reflexivity).
  rewrite kstrtol_format_d_alone by assumption.
  split; reflexivity.
Qed.

(** An entry written by the read path comes back through the write path of
    its property. *)
Lemma enum_entry_written cfg off table i entry :
  In (off, table) (store_enum_tables cfg) ->
  0 <= i -> nth_error table (Z.to_nat i) = Some entry ->
  sysfs_match_string table (sprintf_s_nl entry) = i /\
  cut_at_newline (sprintf_s_nl entry) = entry /\
  sysfs_match_string table entry = i.
Proof.
  intros Hin Hi Hn.
  rewrite <- (Z2Nat.id i Hi). set (n := Z.to_nat i) in *. clearbody n.
  in_tables Hin;
    do 10 (destruct n as [|n];
           [first [ discriminate Hn
                  | injection Hn as <-; vm_compute; repeat split; reflexivity ]
           |]);
    destruct n; discriminate.
Qed.

Lemma array_get_In {A : Type} (a : list A) i :
  0 <= i < ARRAY_SIZE a ->
  exists x, nth_error a (Z.to_nat i) = Some x /\ array_get a i = Some x.
Proof.
  unfold array_get. intros Hi.
  destruct (nth_error a (Z.to_nat i)) as [x|] eqn:E.
  - exists x. split; [reflexivity|].
    destruct (Z.leb_spec 0 i); [|lia].
    destruct (Z.ltb_spec i (ARRAY_SIZE a)); [|lia].
    reflexivity.
  - apply nth_error_None in E. unfold ARRAY_SIZE in Hi. lia.
Qed.

Lemma array_get_outside {A : Type} (a : list A) i :
  ~ 0 <= i < ARRAY_SIZE a -> array_get a i = None.
Proof.
  unfold array_get. intros Hi.
  destruct (Z.leb_spec 0 i); [|reflexivity].
  destruct (Z.ltb_spec i (ARRAY_SIZE a)); [lia | reflexivity].
Qed.

Lemma store_decode_show_enum cfg off table i :
  In (off, table) (store_enum_tables cfg) ->
  0 <= i < ARRAY_SIZE table ->
  exists text,
    show_enum table i = ShowRet (strlen text) text /\
    store_decode cfg off text = StoreValue i /\
    store_decode cfg off (cut_at_newline text) = StoreValue i.
Proof.
  intros Hin Hi. destruct (array_get_In table i Hi) as (entry & Hn & Hg).
  destruct (enum_entry_written _ _ _ _ _ Hin (proj1 Hi) Hn) as (M1 & C & M2).
  pose proof (store_table_small _ _ _ Hin) as Hsmall.
  exists (sprintf_s_nl entry). unfold show_enum. rewrite Hg.
  split; [reflexivity|]. rewrite C. unfold store_decode.
  rewrite !(store_match_enum_table _ _ _ _ Hin), M1, M2.
  destruct (Z.ltb_spec i 0); [lia|].
  rewrite to_int_id by (unfold is_int, INT_MIN, INT_MAX; lia).
  split; reflexivity.
Qed.

(** C2 (as amended).  Reading a property and writing the text back gives
    the value read: for each of the six enum properties of the write path
    and every position inside its table; for each property rendered with
    "%d" and every [int]; for the 64-bit charge counter and every value
    that fits in an [int].  The same holds when the text is written back
    without its line terminator. *)
Theorem show_store_round_trip {S : Type} cfg (psy : power_supply S)
        s off buf ret value s1 :
  power_supply_get_property psy s off = (ret, value, s1) -> 0 <= ret ->
  (forall table,
      In (off, table) (store_enum_tables cfg) ->
      0 <= intval value < ARRAY_SIZE table ->
      round_trips cfg psy s off buf s1 (intval value)) /\
  (int_property cfg off -> is_int (intval value) ->
   round_trips cfg psy s off buf s1 (intval value)) /\
  (off = POWER_SUPPLY_PROP_CHARGE_COUNTER_EXT cfg ->
   is_int (int64val value) ->
   round_trips cfg psy s off buf s1 (int64val value)).
Proof.
  intros Hget Hret. unfold round_trips. repeat split.
  - intros table Hin Hi.
    rewrite (show_enum_property cfg psy _ _ _ _ _ _ _ Hin Hget Hret).
    destruct (store_decode_show_enum _ _ _ _ Hin Hi) as (text & -> & D1 & D2).
    exists text. repeat split; assumption.
  - intros Hint Hv.
    rewrite (show_int_property cfg psy _ _ _ _ _ _ Hint Hget Hret).
    exists (sprintf_d_nl (intval value)). split; [reflexivity|].
    rewrite <- (to_int_id _ Hv) at 2 4.
    apply store_decode_sprintf_d; [|apply is_int_long, Hv].
    intros table Hin. destruct Hint as (_ & _ & Hn).
    apply (Hn table). right. exact Hin.
  - intros -> Hv.
    rewrite (show_int64_property cfg psy _ _ _ _ _ Hget Hret).
    exists (sprintf_lld_nl (int64val value)). split; [reflexivity|].
    rewrite <- (to_int_id _ Hv) at 2 4.
    apply store_decode_sprintf_d; [|apply is_int_long, Hv].
    intros table Hin. layout_facts cfg.
    cbn [In store_enum_tables] in Hin.
    repeat (destruct Hin as [Hin | Hin]; [injection Hin as E _; lia|]).
    contradiction.
Qed.

Lemma show_store_round_trip_witness :
  round_trips vendor_config
    (battery [PROP_STATUS] reading_charging None) [] PROP_STATUS "" [] 1.
Proof.
  destruct (show_store_round_trip vendor_config
              (battery [PROP_STATUS] reading_charging None)
              [] PROP_STATUS "" 0 (propval_of_int 1) []
              eq_refl ltac:(lia)) as (E & _).
  apply (E power_supply_status_text).
  - left. reflexivity.
  - vm_compute. split; [discriminate | reflexivity].
Defined.

(** C2 fails as stated: the 64-bit charge counter 2^32 is rendered in full
    by the read path, and the write path turns that text into the [int] 0;
    the supply type is rendered through its table, and the write path,
    which has no table for it, rejects the text. *)
Lemma round_trip_counterexample :
  let psy := battery [PROP_CHARGE_COUNTER_EXT] reading_charging None in
  power_supply_show_property vendor_config psy []
    PROP_CHARGE_COUNTER_EXT ""
    = (ShowRet 11 (sprintf_s_nl "4294967296"), []) /\
  store_decode vendor_config PROP_CHARGE_COUNTER_EXT
    (sprintf_s_nl "4294967296") = StoreValue 0 /\
  store_decode vendor_config PROP_CHARGE_COUNTER_EXT
    (sprintf_s_nl "4294967296") <> StoreValue 4294967296 /\
  power_supply_show_property vendor_config psy []
    (POWER_SUPPLY_PROP_TYPE vendor_config) ""
    = (ShowRet 8 (sprintf_s_nl "Battery"), []) /\
  store_decode vendor_config (POWER_SUPPLY_PROP_TYPE vendor_config)
    (sprintf_s_nl "Battery") = StoreReturn (- EINVAL).
Proof. vm_compute. repeat split. discriminate. Qed.

(** C4.  The permission of the [type] attribute is read-only for every
    supply, whatever its list of properties, and reading it renders the
    [type] field of the descriptor without a call of the getter (the state
    of the driver is the one before the call). *)
Theorem type_read_only_from_desc {S : Type} cfg (psy : power_supply S)
        s buf :
  power_supply_attr_is_visible cfg psy s (POWER_SUPPLY_PROP_TYPE cfg)
    = mode_read_only /\
  Z.land mode_read_only S_IWUSR = 0 /\
  power_supply_show_property cfg psy s (POWER_SUPPLY_PROP_TYPE cfg) buf
    = (show_enum power_supply_type_text (type psy), s).
Proof.
  split; [|split].
  - unfold power_supply_attr_is_visible. rewrite Z.eqb_refl. reflexivity.
  - reflexivity.
  - apply show_type_property.
Qed.

(** C7 (as amended).  The read path indexes the table of an enum property
    with the value of the driver as it is: inside the table the entry is
    rendered, followed by a line terminator; outside, the table is read out
    of its bounds, and no placeholder is rendered. *)
Theorem show_enum_unchecked {S : Type} cfg (psy : power_supply S) s buf :
  (forall off table ret value s1,
      In (off, table) (store_enum_tables cfg) ->
      power_supply_get_property psy s off = (ret, value, s1) -> 0 <= ret ->
      (0 <= intval value < ARRAY_SIZE table ->
       exists entry,
         nth_error table (Z.to_nat (intval value)) = Some entry /\
         power_supply_show_property cfg psy s off buf
         = (ShowRet (strlen (sprintf_s_nl entry)) (sprintf_s_nl entry), s1)) /\
      (~ 0 <= intval value < ARRAY_SIZE table ->
       power_supply_show_property cfg psy s off buf = (ShowFault, s1))) /\
  (0 <= type psy < ARRAY_SIZE power_supply_type_text ->
   exists entry,
     nth_error power_supply_type_text (Z.to_nat (type psy)) = Some entry /\
     power_supply_show_property cfg psy s (POWER_SUPPLY_PROP_TYPE cfg) buf
     = (ShowRet (strlen (sprintf_s_nl entry)) (sprintf_s_nl entry), s)) /\
  (~ 0 <= type psy < ARRAY_SIZE power_supply_type_text ->
   power_supply_show_property cfg psy s (POWER_SUPPLY_PROP_TYPE cfg) buf
   = (ShowFault, s)).
Proof.
  split; [|split].
  - intros off table ret value s1 Hin Hget Hret.
    rewrite (show_enum_property cfg psy _ _ _ _ _ _ _ Hin Hget Hret).
    unfold show_enum. split; intros Hi.
    + destruct (array_get_In table _ Hi) as (entry & Hn & Hg).
      exists entry. split; [assumption|]. rewrite Hg. reflexivity.
    + rewrite array_get_outside by assumption. reflexivity.
  - intros Hi. rewrite show_type_property.
    destruct (array_get_In power_supply_type_text _ Hi) as (entry & Hn & Hg).
    exists entry. split; [assumption|]. unfold show_enum. rewrite Hg.
    reflexivity.
  - intros Hi. rewrite show_type_property.
    unfold show_enum. rewrite array_get_outside by assumption. reflexivity.
Qed.

Lemma show_enum_unchecked_witness :
  power_supply_show_property vendor_config
    (battery [PROP_STATUS] reading_charging None) [] PROP_STATUS ""
  = (ShowRet 9 (sprintf_s_nl "Charging"), []).
Proof.
  destruct (show_enum_unchecked vendor_config
              (battery [PROP_STATUS] reading_charging None) [] "")
    as (E & _).
  destruct (E PROP_STATUS power_supply_status_text 0 (propval_of_int 1) [])
    as (In_range & _).
  - left. reflexivity.
  - reflexivity.
  - lia.
  - destruct In_range as (entry & Hn & Hs).
    + vm_compute. split; [discriminate | reflexivity].
    + injection Hn as <-. exact Hs.
Defined.

(** C7 fails as stated: a status 6, one past the end of the table of six
    entries, makes the read path read the table out of its bounds. *)
Lemma show_status_out_of_bounds_counterexample :
  ARRAY_SIZE power_supply_status_text = 6 /\
  power_supply_show_property vendor_config
    (battery [PROP_STATUS] reading_bad_status None) [] PROP_STATUS ""
  = (ShowFault, []).
Proof. split; reflexivity. Qed.

(** C8 (as amended).  On a string property (model_name, manufacturer,
    serial_number) the write path never hands the text itself to the
    setter: it parses the text as a signed decimal number, as for an
    integer property.  When parsing fails the function returns the status
    of the parser and the setter is not called; when it succeeds the setter
    is called with the number converted to [int]. *)
Theorem store_text_property {S : Type} cfg (psy : power_supply S)
        s off buf count :
  text_property cfg off ->
  (forall ret,
      kstrtol buf = NotParsed ret ->
      store_decode cfg off buf = StoreReturn ret /\
      power_supply_store_property cfg psy s off buf count = (ret, s)) /\
  (forall n,
      kstrtol buf = Parsed n ->
      store_decode cfg off buf = StoreValue (to_int n) /\
      power_supply_store_property cfg psy s off buf count
      = (let '(ret, s1) :=
           power_supply_set_property psy s off (propval_of_int (to_int n)) in
         if ret <? 0 then (ret, s1) else (count, s1))).
Proof.
  unfold text_property. intros Htext.
  assert (store_decode cfg off buf
          = match kstrtol buf with
            | NotParsed ret' => StoreReturn ret'
            | Parsed long_val => StoreValue (to_int long_val)
            end) as D.
  { unfold store_decode. rewrite store_match_enum_other; [reflexivity|].
    intros table Hin. layout_facts cfg. in_tables Hin; lia. }
  split; intros r Hk; unfold power_supply_store_property;
    rewrite D, Hk; split; reflexivity.
Qed.

Lemma store_text_property_witness :
  store_decode vendor_config PROP_MODEL_NAME "BLP807"
  = StoreReturn (- EINVAL).
Proof.
  destruct (store_text_property vendor_config
              (battery [PROP_MODEL_NAME] reading_charging None) []
              PROP_MODEL_NAME "BLP807" 6) as (E & _).
  - unfold text_property. vm_compute. discriminate.
  - apply (E (- EINVAL)). reflexivity.
Defined.

(** C8 fails as stated: the text "5" written to model_name is decoded to
    the integer 5, the setter is called with it, and the write succeeds. *)
Lemma store_model_name_counterexample :
  store_decode vendor_config PROP_MODEL_NAME "5" = StoreValue 5 /\
  power_supply_store_property vendor_config
    (battery [PROP_MODEL_NAME] reading_charging None) []
    PROP_MODEL_NAME "5" 1
  = (1, [(PROP_MODEL_NAME, 5)]).
Proof. split; reflexivity. Qed.

(* ================================================================== *)
(** * Permissions *)
(* ================================================================== *)

Section Visibility.

Context {S : Type}.
Variable psy : power_supply S.
Variable s : S.

Lemma scan_absent attrno mode : forall props,
  ~ In attrno props -> attr_is_visible_scan psy s props attrno mode = 0.
Proof.
  induction props as [|p rest IH]; intros Hn; cbn [attr_is_visible_scan].
  - reflexivity.
  - destruct (Z.eqb_spec p attrno) as [->|Hne].
    + exfalso. apply Hn. left; reflexivity.
    + apply IH. intros Hin. apply Hn. right; exact Hin.
Qed.

Lemma scan_present attrno mode : forall props,
  In attrno props ->
  attr_is_visible_scan psy s props attrno mode
  = match property_is_writeable psy with
    | Some is_writeable =>
        if 0 <? is_writeable s attrno then Z.lor mode S_IWUSR else mode
    | None => mode
    end.
Proof.
  induction props as [|p rest IH]; intros Hin; [destruct Hin|].
  cbn [attr_is_visible_scan].
  destruct (Z.eqb_spec p attrno) as [->|Hne]; [reflexivity|].
  apply IH. destruct Hin as [E|Hin]; [contradiction | exact Hin].
Qed.

End Visibility.

Lemma read_write_differs : mode_read_write <> mode_read_only.
Proof. discriminate. Qed.

(** C5.  For an attribute other than [type]: when it is not among the
    properties of the supply its mode is 0, so that it is not exposed;
    when it is, its mode is read-only or read-write, and read-write only
    if the supply has a writability predicate that reports the property
    writable. *)
Theorem attr_visibility {S : Type} cfg (psy : power_supply S) s attrno :
  attrno <> POWER_SUPPLY_PROP_TYPE cfg ->
  (~ In attrno (properties psy) ->
   power_supply_attr_is_visible cfg psy s attrno = mode_none) /\
  (In attrno (properties psy) ->
   (power_supply_attr_is_visible cfg psy s attrno = mode_read_only \/
    power_supply_attr_is_visible cfg psy s attrno = mode_read_write) /\
   (power_supply_attr_is_visible cfg psy s attrno = mode_read_write ->
    exists is_writeable,
      property_is_writeable psy = Some is_writeable /\
      0 < is_writeable s attrno)).
Proof.
  intros Ht. unfold power_supply_attr_is_visible.
  destruct (Z.eqb_spec attrno (POWER_SUPPLY_PROP_TYPE cfg)); [contradiction|].
  split.
  - intros Hn. apply scan_absent, Hn.
  - intros Hin. rewrite (scan_present psy s attrno _ _ Hin).
    fold mode_read_only. fold mode_read_write.
    destruct (property_is_writeable psy) as [f|].
    + destruct (Z.ltb_spec 0 (f s attrno)).
      * split; [right; reflexivity|]. intros _. exists f. split; auto.
      * split; [left; reflexivity|]. intros E. symmetry in E.
        destruct (read_write_differs E).
    + split; [left; reflexivity|]. intros E. symmetry in E.
      destruct (read_write_differs E).
Qed.

Lemma attr_visibility_witness :
  power_supply_attr_is_visible vendor_config
    (battery [PROP_STATUS] reading_charging (Some only_status_writeable))
    [] PROP_CAPACITY = mode_none.
Proof.
  destruct (attr_visibility vendor_config
              (battery [PROP_STATUS] reading_charging
                       (Some only_status_writeable))
              [] PROP_CAPACITY) as (Absent & _).
  - discriminate.
  - apply Absent. intros [E | []]. discriminate E.
Defined.

(** C10.  For a property of the supply other than [type], the mode is
    read-write exactly when the supply has a writability predicate and the
    predicate returns a strictly positive value for the property; without
    a predicate, or with a return that is zero or negative, the mode is
    read-only. *)
Theorem attr_writeable_iff_positive {S : Type} cfg (psy : power_supply S)
        s attrno :
  attrno <> POWER_SUPPLY_PROP_TYPE cfg ->
  In attrno (properties psy) ->
  (power_supply_attr_is_visible cfg psy s attrno = mode_read_write <->
   exists is_writeable,
     property_is_writeable psy = Some is_writeable /\
     0 < is_writeable s attrno) /\
  (property_is_writeable psy = None ->
   power_supply_attr_is_visible cfg psy s attrno = mode_read_only) /\
  (forall is_writeable,
      property_is_writeable psy = Some is_writeable ->
      is_writeable s attrno <= 0 ->
      power_supply_attr_is_visible cfg psy s attrno = mode_read_only).
Proof.
  intros Ht Hin. unfold power_supply_attr_is_visible.
  destruct (Z.eqb_spec attrno (POWER_SUPPLY_PROP_TYPE cfg)); [contradiction|].
  rewrite (scan_present psy s attrno _ _ Hin).
  fold mode_read_only. fold mode_read_write.
  split; [split|split].
  - destruct (property_is_writeable psy) as [f|].
    + destruct (Z.ltb_spec 0 (f s attrno)).
      * intros _. exists f. split; auto.
      * intros E. symmetry in E. destruct (read_write_differs E).
    + intros E. symmetry in E. destruct (read_write_differs E).
  - intros (f & -> & Hpos).
    destruct (Z.ltb_spec 0 (f s attrno)); [reflexivity | lia].
  - intros ->. reflexivity.
  - intros f -> Hle.
    destruct (Z.ltb_spec 0 (f s attrno)); [lia | reflexivity].
Qed.

Lemma attr_writeable_iff_positive_witness :
  power_supply_attr_is_visible vendor_config
    (battery [PROP_CAPACITY; PROP_STATUS] reading_charging
             (Some only_status_writeable))
    [] PROP_STATUS = mode_read_write.
Proof.
  destruct (attr_writeable_iff_positive vendor_config
              (battery [PROP_CAPACITY; PROP_STATUS] reading_charging
                       (Some only_status_writeable))
              [] PROP_STATUS) as (Iff & _).
  - discriminate.
  - right. left. reflexivity.
  - apply Iff. exists (fun _ psp => only_status_writeable psp).
    split; reflexivity.
Defined.

(* ================================================================== *)
(** * The notification payload *)
(* ================================================================== *)

Lemma add_uevent_var_cases env line :
  (add_uevent_var env line
   = (0, {| envp := (envp env ++ [line])%list;
            buflen := buflen env + strlen line + 1;
            envp_slots := envp_slots env;
            buf_size := buf_size env |}) /\
   ARRAY_SIZE (envp env) < envp_slots env /\
   strlen line < buf_size env - buflen env) \/
  (add_uevent_var env line = (- ENOMEM, env) /\
   ~ (ARRAY_SIZE (envp env) < envp_slots env /\
      strlen line < buf_size env - buflen env)).
Proof.
  unfold add_uevent_var.
  destruct (Z.leb_spec (envp_slots env) (ARRAY_SIZE (envp env)));
    [right; split; [reflexivity | lia]|].
  destruct (Z.leb_spec (buf_size env - buflen env) (strlen line));
    [right; split; [reflexivity | lia]|].
  left. repeat split; assumption.
Qed.

Section Uevent.

Context {S : Type}.
Variable cfg : build_config.
Variable psy : power_supply S.

(** One iteration of the loop, by the value [show] returns. *)
Lemma uevent_loop_skip off rest s buf env ret buf' s1 :
  power_supply_show_property cfg psy s off buf = (ShowRet ret buf', s1) ->
  ret = - ENODEV \/ ret = - ENODATA ->
  uevent_loop cfg psy (off :: rest) s buf env
  = uevent_loop cfg psy rest s1 buf' env.
Proof.
  intros Hs Hr. cbn [uevent_loop]. rewrite Hs.
  destruct Hr as [-> | ->]; reflexivity.
Qed.

Lemma uevent_loop_abort off rest s buf env ret buf' s1 :
  power_supply_show_property cfg psy s off buf = (ShowRet ret buf', s1) ->
  ret < 0 -> ret <> - ENODEV -> ret <> - ENODATA ->
  uevent_loop cfg psy (off :: rest) s buf env = (Returned ret, env, s1).
Proof.
  intros Hs Hneg H1 H2. cbn [uevent_loop]. rewrite Hs.
  destruct (Z.eqb_spec ret (- ENODEV)); [contradiction|].
  destruct (Z.eqb_spec ret (- ENODATA)); [contradiction|].
  cbn [orb]. destruct (Z.ltb_spec ret 0); [reflexivity | lia].
Qed.

(** The loop never returns the two statuses it skips. *)
Lemma uevent_loop_never_absent : forall props s buf env ret env' s',
  uevent_loop cfg psy props s buf env = (Returned ret, env', s') ->
  ret <> - ENODEV /\ ret <> - ENODATA.
Proof.
  induction props as [|off rest IH]; intros s buf env ret env' s' H;
    cbn [uevent_loop] in H.
  - injection H as <- _ _. split; discriminate.
  - destruct (power_supply_show_property cfg psy s off buf)
      as [[r b|] s1]; [|discriminate].
    destruct (Z.eqb_spec r (- ENODEV)) as [|N1]; [eapply IH, H|].
    destruct (Z.eqb_spec r (- ENODATA)) as [|N2]; [eapply IH, H|].
    cbn [orb] in H. destruct (r <? 0).
    + injection H as <- _ _. split; assumption.
    + destruct (attr_name cfg off) as [nm|]; [|discriminate].
      destruct (add_uevent_var_cases env
                  ("POWER_SUPPLY_" ++ kstruprdup nm ++ "=" ++ cut_at_newline b))
        as [(E & _) | (E & _)]; rewrite E in H; cbn [Z.eqb] in H.
      * eapply IH, H.
      * injection H as <- _ _. split; discriminate.
Qed.

(** The variables the loop adds are those of [prop_lines]. *)
Lemma uevent_loop_lines : forall props s buf env res env' s',
  uevent_loop cfg psy props s buf env = (res, env', s') ->
  exists lines,
    envp env' = (envp env ++ lines)%list /\ prop_lines cfg props lines.
Proof.
  induction props as [|off rest IH]; intros s buf env res env' s' H;
    cbn [uevent_loop] in H.
  - injection H as _ <- _. exists []. rewrite app_nil_r.
    split; [reflexivity | constructor].
  - destruct (power_supply_show_property cfg psy s off buf)
      as [[r b|] s1].
    2:{ injection H as _ <- _. exists []. rewrite app_nil_r.
        split; [reflexivity | constructor]. }
    destruct ((r =? - ENODEV) || (r =? - ENODATA)).
    { destruct (IH _ _ _ _ _ _ H) as (lines & E & P).
      exists lines. split; [exact E | constructor; exact P]. }
    destruct (r <? 0).
    { injection H as _ <- _. exists []. rewrite app_nil_r.
      split; [reflexivity | constructor]. }
    destruct (attr_name cfg off) as [nm|] eqn:Hnm.
    2:{ injection H as _ <- _. exists []. rewrite app_nil_r.
        split; [reflexivity | constructor]. }
    destruct (add_uevent_var_cases env
                ("POWER_SUPPLY_" ++ kstruprdup nm ++ "=" ++ cut_at_newline b))
      as [(E & _) | (E & _)]; rewrite E in H; cbn [Z.eqb] in H.
    + destruct (IH _ _ _ _ _ _ H) as (lines & El & P).
      cbn [envp] in El. rewrite <- app_assoc in El.
      eexists. split; [exact El|].
      apply prop_lines_emit; assumption.
    + injection H as _ <- _. exists []. rewrite app_nil_r.
      split; [reflexivity | constructor].
Qed.

End Uevent.


Section Budget.

Context {S : Type}.
Variable cfg : build_config.
Variable psy : power_supply S.



End Budget.

(** C3 (as amended).  In the loop over the properties, a read that fails
    with [-ENODATA] or [-ENODEV] adds no variable and the loop goes on with
    the next property; a read that fails with any other status, [-EAGAIN]
    included, ends the function, which returns that status.  The function
    never returns one of the two statuses it skips. *)
Theorem uevent_read_failure {S : Type} cfg (psy : power_supply S)
        off rest s buf env ret buf' s1 :
  power_supply_show_property cfg psy s off buf = (ShowRet ret buf', s1) ->
  ret < 0 ->
  (ret = - ENODEV \/ ret = - ENODATA ->
   uevent_loop cfg psy (off :: rest) s buf env
   = uevent_loop cfg psy rest s1 buf' env) /\
  (ret <> - ENODEV -> ret <> - ENODATA ->
   uevent_loop cfg psy (off :: rest) s buf env = (Returned ret, env, s1)) /\
  (forall out env' s',
      power_supply_uevent cfg (Some psy) s env = (Returned out, env', s') ->
      out <> - ENODEV /\ out <> - ENODATA).
Proof.
  intros Hs Hneg. split; [|split].
  - apply uevent_loop_skip, Hs.
  - intros. apply uevent_loop_abort with (buf' := buf'); assumption.
  - intros out env' s' H. cbn [power_supply_uevent] in H.
    destruct (add_uevent_var_cases env ("POWER_SUPPLY_NAME=" ++ name psy))
      as [(E & _) | (E & _)]; rewrite E in H; cbn [Z.eqb] in H.
    + eapply uevent_loop_never_absent, H.
    + injection H as <- _ _. split; discriminate.
Qed.

Lemma uevent_read_failure_witness :
  let psy := battery [PROP_CAPACITY; PROP_STATUS] reading_charging None in
  uevent_loop vendor_config psy [PROP_CAPACITY; PROP_STATUS] [] ""
    (empty_env 32 2048)
  = uevent_loop vendor_config psy [PROP_STATUS] [] "" (empty_env 32 2048).
Proof.
  intros psy.
  destruct (uevent_read_failure vendor_config psy PROP_CAPACITY
              [PROP_STATUS] [] "" (empty_env 32 2048) (- ENODATA) "" [])
    as (Skip & _).
  - reflexivity.
  - reflexivity.
  - apply Skip. right. reflexivity.
Defined.

(** C3 fails as stated: a supply whose reads return [-EAGAIN] is not
    skipped; the function stops at the first property and returns
    [-EAGAIN], with the variable of the name only. *)
Lemma uevent_eagain_counterexample :
  let psy := battery [PROP_STATUS; PROP_PRESENT] reading_not_ready None in
  power_supply_show_property vendor_config psy [] PROP_STATUS ""
    = (ShowRet (- EAGAIN) "", []) /\
  power_supply_uevent vendor_config (Some psy) [] (empty_env 32 2048)
    = (Returned (- EAGAIN),
       {| envp := ["POWER_SUPPLY_NAME=battery0"]; buflen := 27;
          envp_slots := 32; buf_size := 2048 |},
       []).
Proof. split; reflexivity. Qed.




(** C9.  When the function succeeds for a supply, the variables it has
    added start with [POWER_SUPPLY_NAME=] followed by the name of the
    supply; every variable after it is [POWER_SUPPLY_], the upper-cased
    name of the attribute of a property of the supply, [=] and a value, in
    the order of the properties; and no attribute is named NAME, so that
    the leading variable is the only one of its name. *)
Theorem uevent_variable_names {S : Type} cfg (psy : power_supply S)
        s env env' s' :
  power_supply_uevent cfg (Some psy) s env = (Returned 0, env', s') ->
  exists lines,
    envp env'
      = (envp env ++ ("POWER_SUPPLY_NAME=" ++ name psy)%string :: lines)%list /\
    prop_lines cfg (properties psy) lines /\
    (forall off nm, attr_name cfg off = Some nm -> kstruprdup nm <> "NAME").
Proof.
  intros H. cbn [power_supply_uevent] in H.
  destruct (add_uevent_var_cases env ("POWER_SUPPLY_NAME=" ++ name psy))
    as [(E & _) | (E & _)]; rewrite E in H; cbn [Z.eqb] in H;
    [|discriminate].
  destruct (uevent_loop_lines cfg psy _ _ _ _ _ _ _ H) as (lines & El & P).
  cbn [envp] in El. rewrite <- app_assoc in El.
  exists lines. split; [exact El|]. split; [exact P|].
  intros off nm. apply attr_name_not_NAME.
Qed.

Lemma uevent_variable_names_witness :
  let psy := battery [PROP_STATUS; PROP_CAPACITY] reading_charging None in
  exists lines,
    [ "POWER_SUPPLY_NAME=battery0"; "POWER_SUPPLY_STATUS=Charging" ]
      = ([] ++ ("POWER_SUPPLY_NAME=" ++ name psy)%string :: lines)%list /\
    prop_lines vendor_config (properties psy) lines /\
    (forall off nm,
        attr_name vendor_config off = Some nm -> kstruprdup nm <> "NAME").
Proof.
  intros psy.
  apply (uevent_variable_names vendor_config psy [] (empty_env 32 2048)
           {| envp := [ "POWER_SUPPLY_NAME=battery0";
                        "POWER_SUPPLY_STATUS=Charging" ];
              buflen := 56; envp_slots := 32; buf_size := 2048 |} []).
  reflexivity.
Defined.

(* ================================================================== *)
(** * Further properties of the table and of the functions *)
(* ================================================================== *)

(* ================================================================== *)
(** * The names of the attribute table *)
(* ================================================================== *)

Lemma names_distinct_all cfg : names_distinct cfg = true.
Proof. each_config cfg. Qed.

Lemma names_one_line_all cfg : names_one_line cfg = true.
Proof. each_config cfg. Qed.

Lemma tested_names_present_all cfg : tested_names_present cfg = true.
Proof. each_config cfg. Qed.

Lemma distinct_names_NoDup l : distinct_names l = true -> NoDup l.
Proof.
  induction l as [|x rest IH]; cbn [distinct_names]; intros H.
  - constructor.
  - apply andb_true_iff in H. destruct H as [Hx Hr]. constructor.
    + intros Hin. apply negb_true_iff in Hx.
      assert (existsb (String.eqb x) rest = true) as E.
      { apply existsb_exists. exists x. split; [exact Hin|].
        apply String.eqb_refl. }
      congruence.
    + apply IH, Hr.
Qed.

Lemma attr_position_nth nm : forall l i,
  NoDup l -> nth_error l i = Some nm -> attr_position nm l = Z.of_nat i.
Proof.
  induction l as [|a rest IH]; intros i Hnd Hn.
  - destruct i; discriminate.
  - cbn [attr_position]. inversion Hnd as [|? ? Hnotin Hnd']; subst.
    destruct i as [|i]; cbn [nth_error] in Hn.
    + injection Hn as ->. rewrite String.eqb_refl. reflexivity.
    + destruct (String.eqb_spec a nm) as [->|_].
      * exfalso. apply Hnotin. eapply nth_error_In, Hn.
      * rewrite (IH i Hnd' Hn). lia.
Qed.

Lemma attr_position_In nm : forall l,
  In nm l ->
  0 <= attr_position nm l /\
  nth_error l (Z.to_nat (attr_position nm l)) = Some nm.
Proof.
  induction l as [|a rest IH]; intros Hin; [destruct Hin|].
  cbn [attr_position]. destruct (String.eqb_spec a nm) as [->|Hne].
  - split; [lia | reflexivity].
  - destruct Hin as [E|Hin]; [contradiction|].
    destruct (IH Hin) as [Hpos Hn]. split; [lia|].
    replace (Z.to_nat (1 + attr_position nm rest))
      with (Datatypes.S (Z.to_nat (attr_position nm rest))) by lia.
    exact Hn.
Qed.

Lemma names_NoDup cfg :
  NoDup (power_supply_attrs cfg) /\
  NoDup (map kstruprdup (power_supply_attrs cfg)).
Proof.
  pose proof (names_distinct_all cfg) as D. unfold names_distinct in D.
  apply andb_true_iff in D. destruct D as [D1 D2].
  split; apply distinct_names_NoDup; assumption.
Qed.

Lemma attr_name_of_position cfg nm :
  In nm (power_supply_attrs cfg) ->
  attr_name cfg (POWER_SUPPLY_PROP cfg nm) = Some nm.
Proof.
  intros Hin. unfold attr_name, POWER_SUPPLY_PROP.
  destruct (attr_position_In nm _ Hin) as [Hpos Hn].
  destruct (Z.ltb_spec (attr_position nm (power_supply_attrs cfg)) 0);
    [lia | exact Hn].
Qed.

Lemma position_of_attr_name cfg off nm :
  attr_name cfg off = Some nm -> POWER_SUPPLY_PROP cfg nm = off.
Proof.
  unfold attr_name, POWER_SUPPLY_PROP.
  destruct (Z.ltb_spec off 0); [discriminate|]. intros Hn.
  rewrite (attr_position_nth nm _ _ (proj1 (names_NoDup cfg)) Hn). lia.
Qed.

(** X1.  In every build configuration the names of the attribute table
    are pairwise distinct, and stay so once upper-cased for the
    notification; an enumerator and the name at its position determine
    each other. *)
Theorem attr_names_unique cfg :
  NoDup (power_supply_attrs cfg) /\
  NoDup (map kstruprdup (power_supply_attrs cfg)) /\
  (forall nm, In nm (power_supply_attrs cfg) ->
              attr_name cfg (POWER_SUPPLY_PROP cfg nm) = Some nm) /\
  (forall off nm, attr_name cfg off = Some nm ->
                  POWER_SUPPLY_PROP cfg nm = off).
Proof.
  destruct (names_NoDup cfg) as [D1 D2].
  split; [exact D1|]. split; [exact D2|]. split.
  - apply attr_name_of_position.
  - apply position_of_attr_name.
Qed.

Lemma attr_names_unique_witness :
  attr_name vendor_config (POWER_SUPPLY_PROP vendor_config "capacity")
  = Some "capacity".
Proof.
  destruct (attr_names_unique vendor_config) as (_ & _ & Name & _).
  apply Name. vm_compute. tauto.
Defined.


(* ================================================================== *)
(** * Upper-casing *)
(* ================================================================== *)

Lemma toupper_not_lower c : is_lower (toupper c) = false.
Proof. destruct c as [[] [] [] [] [] [] [] []]; reflexivity. Qed.

Lemma toupper_fixed c : islower c = false -> toupper c = c.
Proof. unfold toupper. intros ->. reflexivity. Qed.

Lemma toupper_ascii c :
  is_ascii c = true ->
  is_ascii (toupper c) = true /\
  tolower (toupper c) = tolower c /\
  toupper (toupper c) = toupper c.
Proof.
  destruct c as [[] [] [] [] [] [] [] []]; intros H;
    first [discriminate H | repeat split; reflexivity].
Qed.

(** X2.  [kstruprdup] returns a string of the same length in which no
    letter a to z is left, and leaves a string without lower-case
    characters as it is.  On a string of 7-bit characters the result is
    again one, has the same letters up to their case, and upper-casing it
    again changes nothing; beyond 7 bits this last point fails, the
    character 0xFF being turned into 0xDF, itself a lower-case character
    that is turned into 0xBF. *)
Theorem kstruprdup_upper str :
  String.length (kstruprdup str) = String.length str /\
  all_chars (fun c => negb (is_lower c)) (kstruprdup str) = true /\
  (all_chars (fun c => negb (islower c)) str = true ->
   kstruprdup str = str) /\
  (all_chars is_ascii str = true ->
   all_chars is_ascii (kstruprdup str) = true /\
   same_letters (kstruprdup str) str /\
   kstruprdup (kstruprdup str) = kstruprdup str) /\
  (let y := String (ascii_of_N 255) "" in
   kstruprdup y = String (ascii_of_N 223) "" /\
   kstruprdup (kstruprdup y) = String (ascii_of_N 191) "").
Proof.
  unfold same_letters.
  split; [|split; [|split; [|split]]].
  - induction str as [|c r IH]; cbn [kstruprdup String.length];
      [|rewrite IH]; reflexivity.
  - induction str as [|c r IH]; cbn [kstruprdup all_chars];
      [|rewrite toupper_not_lower, IH]; reflexivity.
  - induction str as [|c r IH]; cbn [kstruprdup all_chars];
      [reflexivity|].
    intros H. apply andb_true_iff in H. destruct H as [Hc Hr].
    apply negb_true_iff in Hc.
    rewrite (toupper_fixed _ Hc), (IH Hr). reflexivity.
  - induction str as [|c r IH]; cbn [kstruprdup all_chars strlower];
      [repeat split|].
    intros H. apply andb_true_iff in H. destruct H as [Hc Hr].
    destruct (toupper_ascii c Hc) as (A1 & A2 & A3).
    destruct (IH Hr) as (I1 & I2 & I3).
    rewrite A1, A2, A3, I1, I2, I3. repeat split.
  - split; reflexivity.
Qed.

Lemma kstruprdup_upper_witness :
  same_letters (kstruprdup "TemperatureR") "TemperatureR" /\
  kstruprdup (kstruprdup "TemperatureR") = kstruprdup "TemperatureR".
Proof.
  destruct (kstruprdup_upper "TemperatureR") as (_ & _ & _ & Ascii & _).
  destruct Ascii as (_ & Same & Idem); [reflexivity|].
  split; assumption.
Defined.

(* ================================================================== *)
(** * The array of attribute pointers *)
(* ================================================================== *)

Lemma array_set_length {A : Type} (x : A) : forall a i,
  List.length (array_set a i x) = List.length a.
Proof.
  induction a as [|y rest IH]; intros [|i]; cbn [array_set List.length];
    try reflexivity.
  rewrite IH. reflexivity.
Qed.

Lemma array_set_nth {A : Type} (x : A) : forall a i k,
  nth_error (array_set a i x) k
  = if (k =? i)%nat && (k <? List.length a)%nat then Some x
    else nth_error a k.
Proof.
  induction a as [|y rest IH]; intros i k.
  - cbn [array_set List.length]. destruct k; rewrite andb_false_r; reflexivity.
  - destruct i as [|i], k as [|k]; cbn [array_set nth_error List.length];
      try reflexivity.
    rewrite IH. reflexivity.
Qed.

(** After [n] iterations from index [i]: the slots [i] to [i + n - 1] that
    exist point to the entry of their own index, the others are as
    before. *)
Lemma init_attrs_loop_nth : forall n i a k,
  0 <= i ->
  nth_error (init_attrs_loop n i a) k
  = if (Z.to_nat i <=? k)%nat && (k <? Z.to_nat i + n)%nat
       && (k <? List.length a)%nat
    then Some (Some (Z.of_nat k))
    else nth_error a k.
Proof.
  induction n as [|m IH]; intros i a k Hi; cbn [init_attrs_loop].
  - replace (k <? Z.to_nat i + 0)%nat with (k <? Z.to_nat i)%nat
      by (f_equal; lia).
    destruct (Nat.leb_spec (Z.to_nat i) k), (Nat.ltb_spec k (Z.to_nat i));
      try reflexivity; lia.
  - rewrite IH by lia. rewrite array_set_length, array_set_nth.
    replace (Z.to_nat (i + 1)) with (Datatypes.S (Z.to_nat i)) by lia.
    destruct (Nat.eqb_spec k (Z.to_nat i)) as [->|Hne].
    + destruct (Nat.leb_spec (Datatypes.S (Z.to_nat i)) (Z.to_nat i)); [lia|].
      destruct (Nat.leb_spec (Z.to_nat i) (Z.to_nat i)); [|lia].
      destruct (Nat.ltb_spec (Z.to_nat i) (Z.to_nat i + Datatypes.S m));
        [|lia].
      cbn [andb]. destruct (Z.to_nat i <? List.length a)%nat;
        [|reflexivity].
      rewrite Z2Nat.id by lia. reflexivity.
    + cbn [andb].
      destruct (Nat.leb_spec (Datatypes.S (Z.to_nat i)) k),
               (Nat.leb_spec (Z.to_nat i) k),
               (Nat.ltb_spec k (Datatypes.S (Z.to_nat i) + m)),
               (Nat.ltb_spec k (Z.to_nat i + Datatypes.S m));
        try reflexivity; lia.
Qed.

Lemma init_attrs_loop_length : forall n i a,
  List.length (init_attrs_loop n i a) = List.length a.
Proof.
  induction n as [|m IH]; intros i a; cbn [init_attrs_loop];
    [reflexivity|].
  rewrite IH, array_set_length. reflexivity.
Qed.

(** X3.  [power_supply_init_attrs] makes the type point to the attribute
    group and fills the pointer array from the table: slot [i] points to
    entry [i] for every entry of the table, and the one slot more than the
    table has is left NULL, which ends the array.  Running it again
    changes nothing. *)
Theorem init_attrs_mirrors_table cfg :
  let '(groups, attrs) :=
    power_supply_init_attrs cfg (__power_supply_attrs_at_load cfg) in
  groups = Some power_supply_attr_groups /\
  ARRAY_SIZE attrs = ARRAY_SIZE (power_supply_attrs cfg) + 1 /\
  (forall i, 0 <= i < ARRAY_SIZE (power_supply_attrs cfg) ->
             array_get attrs i = Some (Some i)) /\
  array_get attrs (ARRAY_SIZE (power_supply_attrs cfg)) = Some None /\
  power_supply_init_attrs cfg attrs = (groups, attrs).
Proof.
  unfold power_supply_init_attrs, __power_supply_attrs_at_load.
  set (n := List.length (power_supply_attrs cfg)).
  set (a := init_attrs_loop n 0 (repeat None (n + 1))).
  assert (List.length a = (n + 1)%nat) as Hlen
      by (unfold a; rewrite init_attrs_loop_length, repeat_length;
          reflexivity).
  assert (forall k, nth_error a k
                    = if (k <? n)%nat then Some (Some (Z.of_nat k))
                      else nth_error (repeat None (n + 1)) k) as Hnth.
  { intros k. unfold a. rewrite init_attrs_loop_nth by lia.
    rewrite repeat_length. change (Z.to_nat 0) with 0%nat.
    cbn [Nat.leb Nat.add andb].
    destruct (Nat.ltb_spec k n), (Nat.ltb_spec k (n + 1));
      try reflexivity; lia. }
  split; [reflexivity|]. split; [unfold ARRAY_SIZE; rewrite Hlen; lia|].
  split; [|split].
  - intros i Hi. unfold array_get, ARRAY_SIZE in *. rewrite Hlen.
    destruct (Z.leb_spec 0 i); [|lia].
    destruct (Z.ltb_spec i (Z.of_nat (n + 1))); [|lia]. cbn [andb].
    rewrite Hnth. destruct (Nat.ltb_spec (Z.to_nat i) n); [|lia].
    rewrite Z2Nat.id by lia. reflexivity.
  - unfold array_get, ARRAY_SIZE. rewrite Hlen. fold n.
    destruct (Z.leb_spec 0 (Z.of_nat n)); [|lia].
    destruct (Z.ltb_spec (Z.of_nat n) (Z.of_nat (n + 1))); [|lia].
    cbn [andb]. rewrite Hnth, Nat2Z.id.
    destruct (Nat.ltb_spec n n); [lia|].
    rewrite nth_error_repeat by lia. reflexivity.
  - f_equal. apply nth_error_ext. intros k.
    rewrite init_attrs_loop_nth by lia. rewrite Hlen.
    change (Z.to_nat 0) with 0%nat. cbn [Nat.leb Nat.add andb].
    rewrite Hnth.
    destruct (Nat.ltb_spec k n), (Nat.ltb_spec k (n + 1));
      try reflexivity; lia.
Qed.

Lemma init_attrs_mirrors_table_witness :
  array_get (snd (power_supply_init_attrs vendor_config
                    (__power_supply_attrs_at_load vendor_config)))
            PROP_STATUS
  = Some (Some PROP_STATUS).
Proof.
  pose proof (init_attrs_mirrors_table vendor_config) as H.
  destruct (power_supply_init_attrs vendor_config
              (__power_supply_attrs_at_load vendor_config)) as [g a].
  destruct H as (_ & _ & Slot & _). apply Slot. vm_compute.
  split; [discriminate | reflexivity].
Defined.

(* ================================================================== *)
(** * Shape of what the read path returns *)
(* ================================================================== *)

Lemma strlen_append a b : strlen (a ++ b) = strlen a + strlen b.
Proof.
  unfold strlen. induction a as [|c r IH]; cbn [append String.length]; lia.
Qed.

Lemma strlen_sprintf_s_nl s : strlen (sprintf_s_nl s) = strlen s + 1.
Proof. unfold sprintf_s_nl. rewrite strlen_append. reflexivity. Qed.

Lemma show_enum_shape table i ret b :
  show_enum table i = ShowRet ret b ->
  ret = strlen b /\ 0 < ret /\ exists body, b = sprintf_s_nl body.
Proof.
  unfold show_enum. destruct (array_get table i) as [text|]; [|discriminate].
  intros [= <- <-]. split; [reflexivity|].
  split; [rewrite strlen_sprintf_s_nl; unfold strlen; lia|].
  exists text. reflexivity.
Qed.

Lemma show_text_shape body ret b :
  show_text (sprintf_s_nl body) = ShowRet ret b ->
  ret = strlen b /\ 0 < ret /\ exists body, b = sprintf_s_nl body.
Proof.
  unfold show_text. intros [= <- <-]. split; [reflexivity|].
  split; [rewrite strlen_sprintf_s_nl; unfold strlen; lia|].
  exists body. reflexivity.
Qed.

Ltac show_branches :=
  repeat match goal with
         | |- context [if ?c then _ else _] => destruct c
         end.

(** X4.  What [power_supply_show_property] returns is either negative,
    and then it is the status of the getter, the attribute is not [type]
    and the buffer is as it was; or it is the length of the text now in
    the buffer, which is positive, the text ending with a line
    terminator. *)
Theorem show_returns_status_or_length {S : Type} cfg (psy : power_supply S)
        s off buf ret b s1 :
  power_supply_show_property cfg psy s off buf = (ShowRet ret b, s1) ->
  (ret < 0 ->
   b = buf /\ off <> POWER_SUPPLY_PROP_TYPE cfg /\
   exists value, power_supply_get_property psy s off = (ret, value, s1)) /\
  (0 <= ret ->
   ret = strlen b /\ 0 < ret /\ exists body, b = sprintf_s_nl body).
Proof.
  destruct (Z.eqb_spec off (POWER_SUPPLY_PROP_TYPE cfg)) as [->|Ht].
  - rewrite show_type_property. intros [= E _].
    apply show_enum_shape in E. split; [lia | intros _; exact E].
  - unfold power_supply_show_property.
    destruct (Z.eqb_spec off (POWER_SUPPLY_PROP_TYPE cfg)); [contradiction|].
    destruct (power_supply_get_property psy s off) as [[r value] s0].
    destruct (Z.ltb_spec r 0) as [Hneg|Hpos].
    + intros [= <- <- <-]. split; [|lia].
      intros _. split; [reflexivity|]. split; [exact Ht|].
      exists value. reflexivity.
    + intros H.
      assert (ret = strlen b /\ 0 < ret /\ exists body, b = sprintf_s_nl body)
        as Shape.
      { revert H. show_branches; intros H;
          pose proof (f_equal fst H) as E; cbn [fst] in E;
          unfold sprintf_lld_nl, sprintf_d_nl in E;
          first [ eapply show_enum_shape; exact E
                | eapply show_text_shape; exact E ]. }
      split; [lia | intros _; exact Shape].
Qed.

Lemma show_returns_status_or_length_witness :
  9 = strlen (sprintf_s_nl "Charging") /\ 0 < 9 /\
  exists body, sprintf_s_nl "Charging" = sprintf_s_nl body.
Proof.
  destruct (show_returns_status_or_length vendor_config
              (battery [PROP_STATUS] reading_charging None) []
              PROP_STATUS "" 9 (sprintf_s_nl "Charging") [] eq_refl)
    as (_ & Len).
  apply Len. lia.
Defined.

(** The text a read leaves in the buffer does not depend on what the
    buffer held, nor do its return value and the state of the driver. *)
Lemma show_buffer_irrelevant {S : Type} cfg (psy : power_supply S)
      s off buf buf0 :
  match power_supply_show_property cfg psy s off buf,
        power_supply_show_property cfg psy s off buf0 with
  | (ShowRet r b, s1), (ShowRet r0 b0, s0) =>
      r = r0 /\ s1 = s0 /\ (0 <= r -> b = b0)
  | (ShowFault, s1), (ShowFault, s0) => s1 = s0
  | _, _ => False
  end.
Proof.
  unfold power_supply_show_property.
  destruct (if off =? POWER_SUPPLY_PROP_TYPE cfg
            then (0, propval_of_int (type psy), s)
            else power_supply_get_property psy s off) as [[r value] s0].
  destruct (Z.ltb_spec r 0); [repeat split; lia|].
  unfold show_enum, show_text.
  show_branches; repeat split; reflexivity.
Qed.

(* ================================================================== *)
(** * Reads that stay inside the tables *)
(* ================================================================== *)


(* ================================================================== *)
(** * What the write path returns *)
(* ================================================================== *)

Lemma to_int_range z : is_int (to_int z).
Proof.
  unfold is_int, to_int, INT_MIN, INT_MAX.
  pose proof (Z.mod_pos_bound (z + 2 ^ 31) (2 ^ 32) ltac:(lia)). lia.
Qed.

Lemma store_decode_outcome cfg off buf :
  match store_decode cfg off buf with
  | StoreValue v => is_int v
  | StoreReturn ret => ret < 0
  end.
Proof.
  unfold store_decode. destruct (store_match_enum cfg off buf <? 0).
  - destruct (kstrtol buf) eqn:E; [apply to_int_range|].
    eapply kstrtol_error_negative, E.
  - apply to_int_range.
Qed.

(** X5.  [power_supply_store_property] returns [count] or a negative
    status, for every attribute and every text.  Either the text is
    rejected, and then the setter is not called and the state of the
    driver is as before; or the setter is called, once, with a value in the
    range of [int], and the function returns the status of the setter when
    it is negative and [count] otherwise. *)
Theorem store_returns_count_or_status {S : Type} cfg (psy : power_supply S)
        s off buf count ret s' :
  power_supply_store_property cfg psy s off buf count = (ret, s') ->
  (ret < 0 \/ ret = count) /\
  ((ret < 0 /\ s' = s /\ store_decode cfg off buf = StoreReturn ret) \/
   (exists v set_ret,
       store_decode cfg off buf = StoreValue v /\ is_int v /\
       power_supply_set_property psy s off (propval_of_int v)
         = (set_ret, s') /\
       ret = if set_ret <? 0 then set_ret else count)).
Proof.
  unfold power_supply_store_property.
  pose proof (store_decode_outcome cfg off buf) as O.
  destruct (store_decode cfg off buf) as [v|r].
  - destruct (power_supply_set_property psy s off (propval_of_int v))
      as [set_ret s1] eqn:Hset.
    destruct (Z.ltb_spec set_ret 0) as [Hneg|Hpos]; intros [= <- <-].
    + split; [left; exact Hneg|]. right. exists v, set_ret.
      destruct (Z.ltb_spec set_ret 0); [|lia]. split; [reflexivity|]. split; [exact O|].
      split; [exact Hset | reflexivity].
    + split; [right; reflexivity|]. right. exists v, set_ret.
      destruct (Z.ltb_spec set_ret 0); [lia|]. split; [reflexivity|]. split; [exact O|].
      split; [exact Hset | reflexivity].
  - intros [= <- <-]. split; [left; exact O|]. left. repeat split. exact O.
Qed.

Lemma store_returns_count_or_status_witness :
  (3 < 0 \/ 3 = 3) /\
  ((3 < 0 /\ [(PROP_CAPACITY, 42)] = [] /\
    store_decode vendor_config PROP_CAPACITY "42" = StoreReturn 3) \/
   (exists v set_ret,
       store_decode vendor_config PROP_CAPACITY "42" = StoreValue v /\
       is_int v /\
       power_supply_set_property
         (battery [PROP_CAPACITY] reading_charging None) []
         PROP_CAPACITY (propval_of_int v)
         = (set_ret, [(PROP_CAPACITY, 42)]) /\
       3 = if set_ret <? 0 then set_ret else 3)).
Proof.
  apply (store_returns_count_or_status vendor_config
           (battery [PROP_CAPACITY] reading_charging None) []
           PROP_CAPACITY "42" 3 3 [(PROP_CAPACITY, 42)]).
  reflexivity.
Defined.

(* ================================================================== *)
(** * More on permissions *)
(* ================================================================== *)

(** X6.  The mode of an attribute depends on the list of properties of
    the supply only through the properties that occur in it: two supplies
    with the same writability predicate whose lists hold the same
    properties, in any order and any number of times, give every attribute
    the same mode. *)
Theorem attr_visibility_by_membership {S : Type} cfg
        (psy1 psy2 : power_supply S) s attrno :
  (forall p, In p (properties psy1) <-> In p (properties psy2)) ->
  property_is_writeable psy1 = property_is_writeable psy2 ->
  power_supply_attr_is_visible cfg psy1 s attrno
  = power_supply_attr_is_visible cfg psy2 s attrno.
Proof.
  intros Hsame Hw. unfold power_supply_attr_is_visible.
  destruct (attrno =? POWER_SUPPLY_PROP_TYPE cfg); [reflexivity|].
  destruct (in_dec Z.eq_dec attrno (properties psy1)) as [Hin|Hout].
  - rewrite (scan_present psy1 s attrno _ _ Hin).
    rewrite (scan_present psy2 s attrno _ _ (proj1 (Hsame _) Hin)).
    rewrite Hw. reflexivity.
  - rewrite (scan_absent psy1 s attrno _ _ Hout).
    rewrite (scan_absent psy2 s attrno _ _);
      [reflexivity | intros Hin; apply Hout, Hsame, Hin].
Qed.

Lemma attr_visibility_by_membership_witness :
  power_supply_attr_is_visible vendor_config
    (battery [PROP_CAPACITY; PROP_STATUS] reading_charging
             (Some only_status_writeable)) [] PROP_STATUS
  = power_supply_attr_is_visible vendor_config
      (battery [PROP_STATUS; PROP_CAPACITY; PROP_STATUS] reading_charging
               (Some only_status_writeable)) [] PROP_STATUS.
Proof.
  apply attr_visibility_by_membership; [|reflexivity].
  intros p. cbn [properties battery In]. tauto.
Defined.

(** X7.  Whatever the supply and the attribute, the mode is one of 0,
    0444 and 0644: reading is granted to everyone or to no one, and
    writing is never granted to the group or to the others. *)
Theorem attr_mode_values {S : Type} cfg (psy : power_supply S) s attrno :
  let mode := power_supply_attr_is_visible cfg psy s attrno in
  (mode = mode_none \/ mode = mode_read_only \/ mode = mode_read_write) /\
  Z.land mode (Z.lor S_IWGRP S_IWOTH) = 0.
Proof.
  assert (forall m, m = mode_none \/ m = mode_read_only \/
                    m = mode_read_write ->
                    (m = mode_none \/ m = mode_read_only \/
                     m = mode_read_write) /\
                    Z.land m (Z.lor S_IWGRP S_IWOTH) = 0) as Bits.
  { intros m Hm. split; [exact Hm|].
    destruct Hm as [-> | [-> | ->]]; reflexivity. }
  cbv zeta. apply Bits. unfold power_supply_attr_is_visible.
  fold mode_read_only.
  destruct (attrno =? POWER_SUPPLY_PROP_TYPE cfg); [tauto|].
  destruct (in_dec Z.eq_dec attrno (properties psy)) as [Hin|Hout].
  - rewrite (scan_present psy s attrno _ _ Hin). fold mode_read_write.
    destruct (property_is_writeable psy) as [f|]; [|tauto].
    destruct (0 <? f s attrno); tauto.
  - rewrite (scan_absent psy s attrno _ _ Hout). left. reflexivity.
Qed.

(* ================================================================== *)
(** * Texts of one line *)
(* ================================================================== *)

Lemma has_newline_false s : has_newline s = false <-> cut_at_newline s = s.
Proof.
  unfold has_newline. rewrite negb_false_iff. apply String.eqb_eq.
Qed.

Lemma cut_at_newline_idem s :
  cut_at_newline (cut_at_newline s) = cut_at_newline s.
Proof.
  induction s as [|c r IH]; cbn [cut_at_newline]; [reflexivity|].
  destruct (Ascii.eqb c newline) eqn:E; [reflexivity|].
  cbn [cut_at_newline]. rewrite E, IH. reflexivity.
Qed.

Lemma cut_at_newline_app a : forall b,
  cut_at_newline a = a ->
  cut_at_newline (a ++ b) = a ++ cut_at_newline b.
Proof.
  induction a as [|c r IH]; intros b; cbn [cut_at_newline append];
    [reflexivity|].
  destruct (Ascii.eqb c newline); [discriminate|].
  intros [= E]. rewrite (IH b E). reflexivity.
Qed.

Lemma eqb_toupper_newline c :
  Ascii.eqb (toupper c) newline = Ascii.eqb c newline.
Proof. destruct c as [[] [] [] [] [] [] [] []]; reflexivity. Qed.

Lemma cut_at_newline_kstruprdup nm :
  cut_at_newline nm = nm ->
  cut_at_newline (kstruprdup nm) = kstruprdup nm.
Proof.
  induction nm as [|c r IH]; cbn [cut_at_newline kstruprdup];
    [reflexivity|].
  rewrite eqb_toupper_newline. destruct (Ascii.eqb c newline);
    [discriminate|].
  intros [= E]. rewrite (IH E). reflexivity.
Qed.

Lemma attr_name_one_line cfg off nm :
  attr_name cfg off = Some nm -> cut_at_newline nm = nm.
Proof.
  intros H%attr_name_In.
  pose proof (names_one_line_all cfg) as A. unfold names_one_line in A.
  rewrite forallb_forall in A. specialize (A _ H).
  apply negb_true_iff, has_newline_false in A. exact A.
Qed.

Lemma property_line_one_line cfg off nm text :
  attr_name cfg off = Some nm ->
  has_newline ("POWER_SUPPLY_" ++ kstruprdup nm ++ "="
                 ++ cut_at_newline text) = false.
Proof.
  intros Hn. apply has_newline_false.
  rewrite cut_at_newline_app by reflexivity.
  rewrite cut_at_newline_app
    by (apply cut_at_newline_kstruprdup, (attr_name_one_line _ _ _ Hn)).
  rewrite cut_at_newline_app by reflexivity.
  rewrite cut_at_newline_idem. reflexivity.
Qed.

(* ================================================================== *)
(** * More on the notification payload *)
(* ================================================================== *)

Lemma add_uevent_var_added env line env1 :
  add_uevent_var env line = (0, env1) ->
  envp env1 = (envp env ++ [line])%list /\
  buflen env1 = buflen env + (strlen line + 1) /\
  envp_slots env1 = envp_slots env /\
  buf_size env1 = buf_size env /\
  within_capacity env1.
Proof.
  destruct (add_uevent_var_cases env line) as [(E & Hs & Hb) | (E & _)];
    rewrite E; [|discriminate].
  intros [= <-]. cbn [envp buflen envp_slots buf_size].
  do 4 (split; [reflexivity || lia|]).
  unfold within_capacity, ARRAY_SIZE in *.
  cbn [envp buflen envp_slots buf_size].
  rewrite length_app. cbn [List.length]. lia.
Qed.

Section Payload.

Context {S : Type}.
Variable cfg : build_config.
Variable psy : power_supply S.

(** What every run of the loop does to the environment, and what it
    returns. *)
Lemma uevent_loop_env : forall props s buf env res env' s',
  uevent_loop cfg psy props s buf env = (res, env', s') ->
  exists lines,
    envp env' = (envp env ++ lines)%list /\
    buflen env' = buflen env + env_bytes lines /\
    envp_slots env' = envp_slots env /\
    buf_size env' = buf_size env /\
    (List.length lines <= List.length props)%nat /\
    Forall (fun line => has_newline line = false) lines /\
    (within_capacity env -> within_capacity env') /\
    (forall ret, res = Returned ret -> ret <= 0).
Proof.
  assert (forall env res n, (forall ret, res = Returned ret -> ret <= 0) ->
            exists lines : list string,
              envp env = (envp env ++ lines)%list /\
              buflen env = buflen env + env_bytes lines /\
              envp_slots env = envp_slots env /\
              buf_size env = buf_size env /\
              (List.length lines <= n)%nat /\
              Forall (fun line => has_newline line = false) lines /\
              (within_capacity env -> within_capacity env) /\
              (forall ret, res = Returned ret -> ret <= 0)) as Stop.
  { intros env res n Hres. exists []. rewrite app_nil_r.
    cbn [env_bytes List.length].
    repeat split; try lia; auto;
      try (unfold within_capacity in *; tauto). }
  assert (forall (env env' : kobj_uevent_env) res n,
            (exists lines : list string,
                envp env' = (envp env ++ lines)%list /\
                buflen env' = buflen env + env_bytes lines /\
                envp_slots env' = envp_slots env /\
                buf_size env' = buf_size env /\
                (List.length lines <= n)%nat /\
                Forall (fun line => has_newline line = false) lines /\
                (within_capacity env -> within_capacity env') /\
                (forall ret, res = Returned ret -> ret <= 0)) ->
            exists lines : list string,
                envp env' = (envp env ++ lines)%list /\
                buflen env' = buflen env + env_bytes lines /\
                envp_slots env' = envp_slots env /\
                buf_size env' = buf_size env /\
                (List.length lines <= Datatypes.S n)%nat /\
                Forall (fun line => has_newline line = false) lines /\
                (within_capacity env -> within_capacity env') /\
                (forall ret, res = Returned ret -> ret <= 0)) as Weaken.
  { intros env env' res n (lines & H1 & H2 & H3 & H4 & H5 & H6).
    exists lines. repeat split; try tauto; try lia;
      try (unfold within_capacity in *; tauto). }
  induction props as [|off rest IH]; intros s buf env res env' s' H;
    cbn [uevent_loop] in H.
  - injection H as <- <- _. apply Stop. intros ret [= <-]. lia.
  - cbn [List.length].
    destruct (power_supply_show_property cfg psy s off buf)
      as [[r b|] s1].
    2:{ injection H as <- <- _. apply Stop. discriminate. }
    destruct ((r =? - ENODEV) || (r =? - ENODATA)).
    { apply Weaken. eapply IH, H. }
    destruct (Z.ltb_spec r 0).
    { injection H as <- <- _. apply Stop. intros ret [= <-]. lia. }
    destruct (attr_name cfg off) as [nm|] eqn:Hnm.
    2:{ injection H as <- <- _. apply Stop. discriminate. }
    set (line := "POWER_SUPPLY_" ++ kstruprdup nm ++ "=" ++ cut_at_newline b)
      in *.
    destruct (add_uevent_var_cases env line) as [(E & _) | (E & _)];
      rewrite E in H; cbn [Z.eqb] in H.
    + destruct (add_uevent_var_added _ _ _ E) as (A1 & A2 & A3 & A4 & A5).
      destruct (IH _ _ _ _ _ _ H)
        as (lines & L1 & L2 & L3 & L4 & L5 & L6 & L7 & L8).
      exists (line :: lines). cbn [env_bytes List.length].
      rewrite L1, L2, L3, L4, A1, A2, A3, A4, <- app_assoc.
      repeat split; try lia; auto;
      try (unfold within_capacity in *; tauto).
      constructor; [apply (property_line_one_line _ _ _ _ Hnm) | exact L6].
    + injection H as <- <- _. apply Stop. intros ret [= <-].
      unfold ENOMEM. lia.
Qed.

End Payload.

(** X8.  Whatever it returns, [power_supply_uevent] leaves the variables
    already in the environment as they are and adds after them at most one
    for the name and one for each property of the supply (none without a
    supply); the capacities are unchanged, the bytes used grow by the
    length of each variable added and one more, and an environment within
    its capacities stays so. *)
Theorem uevent_env_grows {S : Type} cfg (dev : option (power_supply S))
        s env res env' s' :
  power_supply_uevent cfg dev s env = (res, env', s') ->
  exists lines,
    envp env' = (envp env ++ lines)%list /\
    buflen env' = buflen env + env_bytes lines /\
    envp_slots env' = envp_slots env /\
    buf_size env' = buf_size env /\
    (List.length lines
     <= match dev with
        | Some psy => 1 + List.length (properties psy)
        | None => 0
        end)%nat /\
    (within_capacity env -> within_capacity env').
Proof.
  destruct dev as [psy|]; cbn [power_supply_uevent].
  - set (line := "POWER_SUPPLY_NAME=" ++ name psy).
    destruct (add_uevent_var_cases env line) as [(E & _) | (E & _)];
      rewrite E; cbn [Z.eqb]; intros H.
    + destruct (add_uevent_var_added _ _ _ E) as (A1 & A2 & A3 & A4 & A5).
      destruct (uevent_loop_env cfg psy _ _ _ _ _ _ _ H)
        as (lines & L1 & L2 & L3 & L4 & L5 & _ & L7 & _).
      exists (line :: lines). cbn [env_bytes List.length].
      rewrite L1, L2, L3, L4, A1, A2, A3, A4, <- app_assoc.
      repeat split; try lia; auto;
      try (unfold within_capacity in *; tauto).
    + injection H as _ <- _. exists []. rewrite app_nil_r.
      cbn [env_bytes List.length].
      repeat split; try lia; auto;
      try (unfold within_capacity in *; tauto).
  - intros [= _ <- _]. exists []. rewrite app_nil_r.
      cbn [env_bytes List.length].
    repeat split; try lia; auto;
      try (unfold within_capacity in *; tauto).
Qed.

Lemma uevent_env_grows_witness :
  exists lines,
    [ "POWER_SUPPLY_NAME=battery0"; "POWER_SUPPLY_STATUS=Charging" ]
      = ([] ++ lines)%list /\
    56 = 0 + env_bytes lines /\
    32 = 32 /\ 2048 = 2048 /\
    (List.length lines <= 1 + 2)%nat /\
    (within_capacity (empty_env 32 2048) ->
     within_capacity
       {| envp := [ "POWER_SUPPLY_NAME=battery0";
                    "POWER_SUPPLY_STATUS=Charging" ];
          buflen := 56; envp_slots := 32; buf_size := 2048 |}).
Proof.
  apply (uevent_env_grows vendor_config
           (Some (battery [PROP_STATUS; PROP_CAPACITY] reading_charging None))
           [] (empty_env 32 2048) (Returned 0)
           {| envp := [ "POWER_SUPPLY_NAME=battery0";
                        "POWER_SUPPLY_STATUS=Charging" ];
              buflen := 56; envp_slots := 32; buf_size := 2048 |} []).
  reflexivity.
Defined.

(** X9.  Every variable [power_supply_uevent] adds for a property is a
    single line, whatever text the driver returns: the value is cut at its
    first line terminator and no attribute name holds one.  When the name
    of the supply is a single line, so is every variable added. *)
Theorem uevent_variables_one_line {S : Type} cfg (psy : power_supply S)
        s env res env' s' :
  power_supply_uevent cfg (Some psy) s env = (res, env', s') ->
  exists lines,
    envp env' = (envp env ++ lines)%list /\
    Forall (fun line => has_newline line = false) (tl lines) /\
    (has_newline (name psy) = false ->
     Forall (fun line => has_newline line = false) lines).
Proof.
  cbn [power_supply_uevent].
  set (line := "POWER_SUPPLY_NAME=" ++ name psy).
  destruct (add_uevent_var_cases env line) as [(E & _) | (E & _)];
    rewrite E; cbn [Z.eqb]; intros H.
  - destruct (uevent_loop_env cfg psy _ _ _ _ _ _ _ H)
      as (lines & L1 & _ & _ & _ & _ & L6 & _).
    exists (line :: lines). cbn [envp] in L1. rewrite L1, <- app_assoc.
    split; [reflexivity|]. split; [exact L6|].
    intros Hname. constructor; [|exact L6].
    apply has_newline_false. unfold line.
    rewrite cut_at_newline_app by reflexivity.
    apply has_newline_false in Hname. rewrite Hname. reflexivity.
  - injection H as _ <- _. exists []. rewrite app_nil_r.
    split; [reflexivity|]. split; constructor.
Qed.

Lemma uevent_variables_one_line_witness :
  exists lines,
    [ "POWER_SUPPLY_NAME=battery0"; "POWER_SUPPLY_STATUS=Charging" ]
      = ([] ++ lines)%list /\
    Forall (fun line => has_newline line = false) (tl lines) /\
    (has_newline "battery0" = false ->
     Forall (fun line => has_newline line = false) lines).
Proof.
  apply (uevent_variables_one_line vendor_config
           (battery [PROP_STATUS; PROP_CAPACITY] reading_charging None)
           [] (empty_env 32 2048) (Returned 0)
           {| envp := [ "POWER_SUPPLY_NAME=battery0";
                        "POWER_SUPPLY_STATUS=Charging" ];
              buflen := 56; envp_slots := 32; buf_size := 2048 |} []).
  reflexivity.
Defined.

(** X10.  [power_supply_uevent] returns 0 or a negative status: the
    positive length that a successful read returns into the same variable
    never reaches the caller. *)
Theorem uevent_returns_zero_or_negative {S : Type} cfg
        (dev : option (power_supply S)) s env ret env' s' :
  power_supply_uevent cfg dev s env = (Returned ret, env', s') ->
  ret <= 0.
Proof.
  destruct dev as [psy|]; cbn [power_supply_uevent].
  - destruct (add_uevent_var_cases env ("POWER_SUPPLY_NAME=" ++ name psy))
      as [(E & _) | (E & _)]; rewrite E; cbn [Z.eqb]; intros H.
    + destruct (uevent_loop_env cfg psy _ _ _ _ _ _ _ H)
        as (lines & _ & _ & _ & _ & _ & _ & _ & L8).
      apply L8. reflexivity.
    + injection H as <- _ _. unfold ENOMEM. lia.
  - intros [= <- _ _]. lia.
Qed.

Lemma uevent_returns_zero_or_negative_witness : - EAGAIN <= 0.
Proof.
  apply (uevent_returns_zero_or_negative vendor_config
           (Some (battery [PROP_STATUS; PROP_PRESENT] reading_not_ready None))
           [] (empty_env 32 2048) (- EAGAIN)
           {| envp := ["POWER_SUPPLY_NAME=battery0"]; buflen := 27;
              envp_slots := 32; buf_size := 2048 |} []).
  reflexivity.
Defined.

(* ================================================================== *)
(** * The payload of a supply whose reads keep the state *)
(* ================================================================== *)

Lemma show_keeps_state {S : Type} cfg (psy : power_supply S) s off buf :
  reads_keep_state psy ->
  snd (power_supply_show_property cfg psy s off buf) = s.
Proof.
  intros Hk. unfold power_supply_show_property.
  destruct (off =? POWER_SUPPLY_PROP_TYPE cfg).
  - cbn [Z.ltb Z.compare]. show_branches; reflexivity.
  - pose proof (Hk s off) as E.
    destruct (power_supply_get_property psy s off) as [[r value] s0].
    cbn [snd] in E. subst s0. show_branches; reflexivity.
Qed.

Lemma uevent_loop_snapshot {S : Type} cfg (psy : power_supply S) s :
  reads_keep_state psy ->
  forall props buf env env' s',
    uevent_loop cfg psy props s buf env = (Returned 0, env', s') ->
    s' = s /\
    envp env' = (envp env ++ snapshot_lines cfg psy s props)%list.
Proof.
  intros Hk. induction props as [|off rest IH]; intros buf env env' s' H;
    cbn [uevent_loop] in H.
  - injection H as <- <-. cbn [snapshot_lines flat_map].
    rewrite app_nil_r. split; reflexivity.
  - unfold snapshot_lines. cbn [flat_map]. fold (snapshot_lines cfg psy s rest).
    pose proof (show_keeps_state cfg psy s off buf Hk) as Ks.
    pose proof (show_buffer_irrelevant cfg psy s off buf "") as Irr.
    destruct (power_supply_show_property cfg psy s off buf)
      as [[r b|] s1]; [|discriminate].
    cbn [snd] in Ks. subst s1.
    destruct (power_supply_show_property cfg psy s off "")
      as [[r0 b0|] s0]; [|contradiction].
    destruct Irr as (<- & _ & Hb).
    destruct (Z.ltb_spec r 0) as [Hneg|Hpos].
    + destruct ((r =? - ENODEV) || (r =? - ENODATA)).
      * cbn [app]. eapply IH, H.
      * injection H as -> _ _. lia.
    + destruct ((r =? - ENODEV) || (r =? - ENODATA)) eqn:Eskip.
      { apply orb_true_iff in Eskip.
        destruct Eskip as [Eq|Eq]; apply Z.eqb_eq in Eq;
          unfold ENODEV, ENODATA in Eq; lia. }
      rewrite <- (Hb Hpos).
      destruct (attr_name cfg off) as [nm|]; [|discriminate].
      set (line := "POWER_SUPPLY_" ++ kstruprdup nm ++ "=" ++ cut_at_newline b)
        in *.
      destruct (add_uevent_var_cases env line) as [(E & _) | (E & _)];
        rewrite E in H; cbn [Z.eqb] in H; [|discriminate].
      destruct (IH _ _ _ _ H) as (-> & L). split; [reflexivity|].
      rewrite L. cbn [envp app]. rewrite <- app_assoc. reflexivity.
Qed.

(** X11.  For a supply whose reads leave the driver as it is, a
    successful [power_supply_uevent] adds the variable of the name and
    then, for each property of the supply in order, the variable made of
    what a read of that property alone returns, and nothing for a property
    whose read fails: every property is accounted for. *)
Theorem uevent_snapshot {S : Type} cfg (psy : power_supply S)
        s env env' s' :
  reads_keep_state psy ->
  power_supply_uevent cfg (Some psy) s env = (Returned 0, env', s') ->
  s' = s /\
  envp env'
  = (envp env ++ ("POWER_SUPPLY_NAME=" ++ name psy)%string
       :: snapshot_lines cfg psy s (properties psy))%list.
Proof.
  intros Hk. cbn [power_supply_uevent].
  destruct (add_uevent_var_cases env ("POWER_SUPPLY_NAME=" ++ name psy))
    as [(E & _) | (E & _)]; rewrite E; cbn [Z.eqb]; [|discriminate].
  intros H. destruct (uevent_loop_snapshot cfg psy s Hk _ _ _ _ _ H)
    as (-> & L).
  split; [reflexivity|]. rewrite L. cbn [envp]. rewrite <- app_assoc.
  reflexivity.
Qed.

Lemma uevent_snapshot_witness :
  let psy := battery [PROP_STATUS; PROP_CAPACITY] reading_charging None in
  [] = @nil (Z * Z) /\
  [ "POWER_SUPPLY_NAME=battery0"; "POWER_SUPPLY_STATUS=Charging" ]
  = ([] ++ ("POWER_SUPPLY_NAME=" ++ name psy)%string
        :: snapshot_lines vendor_config psy [] (properties psy))%list.
Proof.
  intros psy.
  apply (uevent_snapshot vendor_config psy [] (empty_env 32 2048)
           {| envp := [ "POWER_SUPPLY_NAME=battery0";
                        "POWER_SUPPLY_STATUS=Charging" ];
              buflen := 56; envp_slots := 32; buf_size := 2048 |} []).
  - intros s off. unfold psy, battery. cbn [power_supply_get_property].
    destruct (reading_charging off). reflexivity.
  - reflexivity.
Defined.

(* ================================================================== *)
(** * Runs that stay inside the tables *)
(* ================================================================== *)

Lemma attr_name_inside cfg off :
  0 <= off < ARRAY_SIZE (power_supply_attrs cfg) ->
  exists nm, attr_name cfg off = Some nm.
Proof.
  intros Hoff. destruct (array_get_In _ _ Hoff) as (nm & Hn & _).
  exists nm. unfold attr_name. destruct (Z.ltb_spec off 0); [lia | exact Hn].
Qed.




(* ================================================================== *)
(** * Positions and names agree on the rendering *)
(* ================================================================== *)

Lemma tested_position cfg nm :
  In nm tested_names ->
  attr_name cfg (POWER_SUPPLY_PROP cfg nm) = Some nm.
Proof.
  intros Hin. apply attr_name_of_position.
  pose proof (tested_names_present_all cfg) as P.
  unfold tested_names_present in P. rewrite forallb_forall in P.
  specialize (P _ Hin). apply existsb_exists in P.
  destruct P as (x & Hx & E). apply String.eqb_eq in E. subst x. exact Hx.
Qed.

Lemma show_text_property {S : Type} cfg (psy : power_supply S)
      s off buf ret value s1 :
  text_property cfg off ->
  power_supply_get_property psy s off = (ret, value, s1) -> 0 <= ret ->
  power_supply_show_property cfg psy s off buf
  = (show_text (sprintf_s_nl (strval value)), s1).
Proof.
  unfold text_property. intros Ht Hget Hret. layout_facts cfg.
  unfold power_supply_show_property.
  decide_offsets. rewrite Hget. decide_offsets. reflexivity.
Qed.

(** X13.  In every build configuration the read path, which tests the
    position of the attribute, renders an attribute of the table other
    than [type] as the name at that position calls for: the six enum
    properties through their tables, [model_name], [manufacturer] and
    [serial_number], the last three entries, as strings,
    [charge_counter_ext] as a 64-bit number, and every other attribute,
    the vendor ones included, as an [int]. *)
Theorem show_renders_by_name {S : Type} cfg (psy : power_supply S)
        s off buf ret value s1 :
  0 <= off < ARRAY_SIZE (power_supply_attrs cfg) ->
  off <> POWER_SUPPLY_PROP_TYPE cfg ->
  power_supply_get_property psy s off = (ret, value, s1) -> 0 <= ret ->
  exists nm,
    attr_name cfg off = Some nm /\
    power_supply_show_property cfg psy s off buf
    = (render_by_name nm value, s1).
Proof.
  intros Hoff Htype Hget Hret.
  destruct (attr_name_inside cfg off Hoff) as (nm & Hnm).
  exists nm. split; [exact Hnm|].
  pose proof (position_of_attr_name _ _ _ Hnm) as Hpos.
  assert (forall t, In t tested_names -> off = POWER_SUPPLY_PROP cfg t ->
                    nm = t) as Name.
  { intros t Ht Eo. pose proof (tested_position cfg t Ht) as P.
    rewrite <- Eo, Hnm in P. congruence. }
  assert (forall t, In t tested_names -> nm <> t ->
                    off <> POWER_SUPPLY_PROP cfg t) as Other
      by (intros t Ht Hne Eo; apply Hne, (Name t Ht Eo)).
  unfold render_by_name.
  destruct (String.eqb_spec nm "status") as [->|N1].
  { apply show_enum_property with (ret := ret); try assumption.
    rewrite <- Hpos. cbn [In store_enum_tables]. tauto. }
  destruct (String.eqb_spec nm "charge_type") as [->|N2].
  { apply show_enum_property with (ret := ret); try assumption.
    rewrite <- Hpos. cbn [In store_enum_tables]. tauto. }
  destruct (String.eqb_spec nm "health") as [->|N3].
  { apply show_enum_property with (ret := ret); try assumption.
    rewrite <- Hpos. cbn [In store_enum_tables]. tauto. }
  destruct (String.eqb_spec nm "technology") as [->|N4].
  { apply show_enum_property with (ret := ret); try assumption.
    rewrite <- Hpos. cbn [In store_enum_tables]. tauto. }
  destruct (String.eqb_spec nm "capacity_level") as [->|N5].
  { apply show_enum_property with (ret := ret); try assumption.
    rewrite <- Hpos. cbn [In store_enum_tables]. tauto. }
  destruct (String.eqb_spec nm "type") as [->|N6].
  { exfalso. apply Htype. symmetry. exact Hpos. }
  destruct (String.eqb_spec nm "scope") as [->|N7].
  { apply show_enum_property with (ret := ret); try assumption.
    rewrite <- Hpos. cbn [In store_enum_tables]. tauto. }
  layout_facts cfg.
  destruct (String.eqb_spec nm "model_name") as [->|N8].
  { apply show_text_property with (ret := ret); try assumption.
    unfold text_property, POWER_SUPPLY_PROP_MODEL_NAME. lia. }
  destruct (String.eqb_spec nm "manufacturer") as [->|N9].
  { apply show_text_property with (ret := ret); try assumption.
    unfold text_property, POWER_SUPPLY_PROP_MANUFACTURER in *. lia. }
  destruct (String.eqb_spec nm "serial_number") as [->|N10].
  { apply show_text_property with (ret := ret); try assumption.
    unfold text_property, POWER_SUPPLY_PROP_SERIAL_NUMBER in *. lia. }
  cbn [orb].
  destruct (String.eqb_spec nm "charge_counter_ext") as [->|N11].
  { rewrite <- Hpos. apply show_int64_property with (ret := ret);
      [|assumption].
    unfold POWER_SUPPLY_PROP_CHARGE_COUNTER_EXT. rewrite Hpos. exact Hget. }
  apply show_int_property with (ret := ret); try assumption.
  assert (forall t, In t tested_names -> off <> POWER_SUPPLY_PROP cfg t)
    as Off.
  { intros t Ht. apply Other; [exact Ht|].
    cbn [In tested_names] in Ht.
    repeat (destruct Ht as [<- | Ht]; [assumption|]). contradiction. }
  assert (In_tested : forall t, existsb (String.eqb t) tested_names = true ->
                                In t tested_names).
  { intros t Ht. apply existsb_exists in Ht. destruct Ht as (x & Hx & E).
    apply String.eqb_eq in E. subst x. exact Hx. }
  pose proof (Off "status" (In_tested "status" eq_refl)).
  pose proof (Off "charge_type" (In_tested "charge_type" eq_refl)).
  pose proof (Off "health" (In_tested "health" eq_refl)).
  pose proof (Off "technology" (In_tested "technology" eq_refl)).
  pose proof (Off "capacity_level" (In_tested "capacity_level" eq_refl)).
  pose proof (Off "scope" (In_tested "scope" eq_refl)).
  pose proof (Off "charge_counter_ext" (In_tested "charge_counter_ext" eq_refl)).
  pose proof (Off "model_name" (In_tested "model_name" eq_refl)).
  pose proof (Off "manufacturer" (In_tested "manufacturer" eq_refl)).
  pose proof (Off "serial_number" (In_tested "serial_number" eq_refl)).
  unfold int_property.
  fold (POWER_SUPPLY_PROP_STATUS cfg) (POWER_SUPPLY_PROP_CHARGE_TYPE cfg)
       (POWER_SUPPLY_PROP_HEALTH cfg) (POWER_SUPPLY_PROP_TECHNOLOGY cfg)
       (POWER_SUPPLY_PROP_CAPACITY_LEVEL cfg) (POWER_SUPPLY_PROP_SCOPE cfg)
       (POWER_SUPPLY_PROP_CHARGE_COUNTER_EXT cfg)
       (POWER_SUPPLY_PROP_MODEL_NAME cfg)
       (POWER_SUPPLY_PROP_MANUFACTURER cfg)
       (POWER_SUPPLY_PROP_SERIAL_NUMBER cfg) in *.
  split; [lia|]. split; [assumption|].
  intros table Hin. cbn [In show_enum_tables store_enum_tables] in Hin.
  repeat (destruct Hin as [Hin | Hin]; [injection Hin as E _; congruence|]).
  contradiction.
Qed.

Lemma show_renders_by_name_witness :
  exists nm,
    attr_name vendor_config PROP_MODEL_NAME = Some nm /\
    power_supply_show_property vendor_config
      (battery [PROP_MODEL_NAME] reading_charging None) []
      PROP_MODEL_NAME ""
    = (render_by_name nm
         {| intval := 0; int64val := 0; strval := "BLP807" |}, []).
Proof.
  apply (show_renders_by_name vendor_config
           (battery [PROP_MODEL_NAME] reading_charging None) []
           PROP_MODEL_NAME "" 0).
  - vm_compute. split; [discriminate | reflexivity].
  - discriminate.
  - reflexivity.
  - lia.
Defined.
